(** * text_bot: the conversation handler of [index.py]

    A shallow embedding of the Telegram bot of [index.py]: the per-user state
    store [user_states], the catalog helper [get_unique_values], the push
    generator [generate_push_notifications] and the dispatcher
    [handle_message], followed by the properties the specification states
    about them.

    Python's [str] is a sequence of Unicode code points and is modelled as a
    list of code points; dictionaries with string keys are finite maps; a
    cell of the sheet is a text or an integer.
    Everything outside the process (the Google sheet, the drive, the
    DeepSeek service, Telegram's delivery of a reply, the random generator)
    is an input of the model, gathered in the record [env]. *)

From stdpp Require Import gmap strings list sorting pretty.

(** ** Text *)

(** Python's [str]; a character is its code point. *)
Abbreviation str := (list N).

(** An ASCII literal of the source as a [str]. *)
Definition lit (s : string) : str :=
  (λ a, Ascii.N_of_ascii a) <$> String.list_ascii_of_string s.
Global Arguments lit : simpl never.

(** The newline escape of a Python literal. *)
Definition nl : str := [10%N].

(** Python compares two [str] code point by code point; a proper prefix
    comes first.  [str_le a b] is [a <= b]. *)
Fixpoint str_le (a b : str) : bool :=
  match a, b with
  | [], _ => true
  | _ :: _, [] => false
  | x :: a', y :: b' =>
      if (x <? y)%N then true
      else if (y <? x)%N then false
      else str_le a' b'
  end.

(** ** Cells *)

(** A value of a record as [sheet.get_all_records()] returns it: gspread
    turns a cell that reads as an integer into an [int] and leaves the
    others as text, the empty cell being the empty text.  (A cell it reads
    as a float is not modelled.) *)
Inductive cell :=
  | Str (s : str)
  | Num (z : Z).

Global Instance cell_eq_dec : EqDecision cell.
Proof. solve_decision. Defined.

Global Instance cell_countable : Countable cell :=
  inj_countable'
    (λ c, match c with Str s => inl s | Num z => inr z end)
    (λ x, match x with inl s => Str s | inr z => Num z end)
    (λ c, match c with Str _ | Num _ => eq_refl end).

(** [bool(c)]: the empty text and zero are falsy. *)
Definition truthy (c : cell) : bool :=
  match c with
  | Str [] => false
  | Num 0 => false
  | _ => true
  end.

(** [str(c)], which is how an f-string formats the value: a text is itself,
    an integer its decimal numeral. *)
Definition to_str (c : cell) : str :=
  match c with
  | Str s => s
  | Num z => lit (pretty z)
  end.

(** The texts and the integers among the cells, in their order. *)
Definition texts (cs : list cell) : list str :=
  omap (λ c, match c with Str s => Some s | Num _ => None end) cs.

Definition numbers (cs : list cell) : list Z :=
  omap (λ c, match c with Str _ => None | Num z => Some z end) cs.

(** ** Slices and ranges *)

(** [range(start, stop, step)] for a positive [step]: the fuel [stop - start]
    always suffices, since every round adds at least one. *)
Fixpoint range_from (fuel i stop step : nat) : list nat :=
  match fuel with
  | 0 => []
  | S fuel' => if i <? stop then i :: range_from fuel' (i + step) stop step else []
  end.

Definition range (start stop step : nat) : list nat :=
  range_from (stop - start) start stop step.

(** [l[i:j]] for [0 <= i <= j]; like Python's slice it stops at the end of
    [l]. *)
Definition slice {A} (l : list A) (i j : nat) : list A := take (j - i) (drop i l).

(** [[response[i:i + n] for i in range(0, len(response), n)]] *)
Definition parts (n : nat) (response : str) : list str :=
  (λ i, slice response i (i + n)) <$> range 0 (length response) n.

(** ** The catalog *)

(** A row of the sheet as [get_all_records] returns it: a dictionary keyed by
    the header row.  The code reads the five facet columns and [text]; the
    column [image_id] may be absent. *)
Record record := Record_ {
  audience : cell;
  language : cell;
  country : cell;
  topic : cell;
  format : cell;
  text : cell;
  image_id : option cell
}.

(** [record[column_name]], [None] standing for [KeyError]. *)
Definition get_field (r : record) (column_name : string) : option cell :=
  if decide (column_name = "audience") then Some (audience r)
  else if decide (column_name = "language") then Some (language r)
  else if decide (column_name = "country") then Some (country r)
  else if decide (column_name = "topic") then Some (topic r)
  else if decide (column_name = "format") then Some (format r)
  else if decide (column_name = "text") then Some (text r)
  else if decide (column_name = "image_id") then image_id r
  else None.

(** ** Conversation state *)

(** The values the code stores under ['state'] ([None] is Python's [None]). *)
Inductive step :=
  | AUDIENCE | LANGUAGE | COUNTRY | TOPIC | FORMAT
  | awaiting_product | awaiting_country | awaiting_language
  | awaiting_link | awaiting_message.

Global Instance step_eq_dec : EqDecision step.
Proof. solve_decision. Defined.

(** An entry of [user_states]: [{'state': ..., 'data': {...}}]. *)
Record user_state := UserState {
  state : option step;
  data : gmap string str
}.

(** ** Effects *)

Inductive exn :=
  | KeyError
  | IndexError
  | TypeError          (* raised by [<] between a text and a number *)
  | GoogleError        (* raised by gspread, oauth2client or the drive client *)
  | TelegramError      (* raised by [reply_text] *)
  | RequestException   (* raised by [requests]: connection, timeout, status, JSON *)
  | ResponseShapeError (* the decoded answer lacks [choices[0].message.content] *).

(** What [reply_text] is called with: the text and the optional reply
    keyboard (rows of button labels). *)
Record message := Message {
  body : str;
  reply_markup : option (list (list cell))
}.

Definition plain (b : str) : message := Message b None.

(** The process state a handler reads and writes: the store, the calls of
    [reply_text] so far (in order) and the lines given to [logger.error]
    (the message's prefix and the exception). *)
Record world := World {
  user_states : gmap Z user_state;
  replies : list message;
  logged : list (string * exn)
}.

(** How the generation request ends. *)
Inductive http_outcome :=
  | ConnectionFailed
  | TimedOut
  | BadStatus
  | InvalidJSON
  | UnexpectedShape
  | Completion (content : str).

(** The inputs of one handler call that come from outside the process. *)
Record env := Env {
  google_ok : bool;                       (* [init_google_services] returns *)
  sheet_records : option (list record);  (* [sheet.get_all_records()], [None]: it raises *)
  drive_link : cell → option str;        (* the file's [webViewLink], [None]: the lookup raises *)
  random_index : nat;                     (* the draw of [random.choice] *)
  deepseek : http_outcome;
  reply_raises : nat → bool               (* [reply_text] raises when n replies came before *)
}.

Inductive result (A : Type) :=
  | Ok (a : A)
  | Raise (e : exn).
Global Arguments Ok {A} a.
Global Arguments Raise {A} e.

(** A computation that reads and writes the [world] and returns or raises. *)
Definition M (A : Type) : Type := world → result A * world.

Global Instance M_ret : MRet M := λ A a w, (Ok a, w).
Global Instance M_bind : MBind M := λ A B f m w,
  match m w with
  | (Ok a, w') => f a w'
  | (Raise e, w') => (Raise e, w')
  end.
Global Instance M_throw : MThrow exn M := λ A e w, (Raise e, w).

(** [try: m except Exception as e: h e] *)
Definition try_except {A} (m : M A) (h : exn → M A) : M A := λ w,
  match m w with
  | (Ok a, w') => (Ok a, w')
  | (Raise e, w') => h e w'
  end.

(** [try: m finally: f]: [f] runs in both cases; what it raises replaces the
    outcome of [m]. *)
Definition try_finally {A} (m : M A) (f : M unit) : M A := λ w,
  let (r, w1) := m w in
  match f w1 with
  | (Ok _, w2) => (r, w2)
  | (Raise e, w2) => (Raise e, w2)
  end.

Fixpoint for_each {A} (f : A → M unit) (l : list A) : M unit :=
  match l with
  | [] => mret ()
  | x :: l' => f x;; for_each f l'
  end.

Definition logger_error (prefix : string) (e : exn) : M unit := λ w,
  (Ok (), World (user_states w) (replies w) (logged w ++ [(prefix, e)])).

(** [await update.message.reply_text(...)] *)
Definition reply_text (E : env) (m : message) : M unit := λ w,
  let w' := World (user_states w) (replies w ++ [m]) (logged w) in
  if reply_raises E (length (replies w)) then (Raise TelegramError, w') else (Ok (), w').

(** [d[k]] on a dictionary. *)
Definition getitem {K} `{Countable K} {V} (d : gmap K V) (k : K) : M V :=
  match d !! k with
  | Some v => mret v
  | None => mthrow KeyError
  end.

(** [user_states[user_id]] *)
Definition get_user (user_id : Z) : M user_state := λ w,
  getitem (user_states w) user_id w.

Definition put_user (user_id : Z) (u : user_state) : M unit := λ w,
  (Ok (), World (<[user_id := u]> (user_states w)) (replies w) (logged w)).

(** [user_states[user_id]['state'] = s] *)
Definition set_state (user_id : Z) (s : option step) : M unit :=
  u ← get_user user_id;
  put_user user_id (UserState s (data u)).

(** [user_states[user_id]['data'][key] = value]; the assignments through
    the alias [user_data] of that dictionary land in the same object. *)
Definition set_data (user_id : Z) (key : string) (value : str) : M unit :=
  u ← get_user user_id;
  put_user user_id (UserState (state u) (<[key := value]> (data u))).

(** [user_id in user_states] *)
Definition contains (user_id : Z) : M bool := λ w,
  (Ok (bool_decide (is_Some (user_states w !! user_id))), w).

(** [del user_states[user_id]] *)
Definition del_user (user_id : Z) : M unit := λ w,
  match user_states w !! user_id with
  | Some _ => (Ok (), World (delete user_id (user_states w)) (replies w) (logged w))
  | None => (Raise KeyError, w)
  end.

(** ** The external services *)

(** [init_google_services]: the handles it returns carry no data of their
    own in the model; the sheet is read through [get_all_records] and the
    drive through [files_get_link]. *)
Definition init_google_services (E : env) : M unit :=
  try_except
    (if google_ok E then mret () else mthrow GoogleError)
    (λ e, logger_error "Error initializing Google services" e;; mthrow e).

(** [sheet.get_all_records()] *)
Definition get_all_records (E : env) : M (list record) :=
  match sheet_records E with
  | Some records => mret records
  | None => mthrow GoogleError
  end.

(** [drive_service.files().get(fileId=..., fields='webViewLink').execute()['webViewLink']] *)
Definition files_get_link (E : env) (file_id : cell) : M str :=
  match drive_link E file_id with
  | Some link => mret link
  | None => mthrow GoogleError
  end.

(** [random.choice(seq)]: [seq[i]] for the drawn [i] below [len(seq)], and
    [IndexError] on an empty sequence. *)
Definition random_choice {A} (E : env) (seq : list A) : M A :=
  match seq !! (random_index E `mod` length seq) with
  | Some x => mret x
  | None => mthrow IndexError
  end.

(** ** [get_unique_values] *)

(** The generator [record[column_name] for record in records if
    record[column_name]]. *)
Fixpoint truthy_values (column_name : string) (records : list record) : M (list cell) :=
  match records with
  | [] => mret []
  | r :: records' =>
      match get_field r column_name with
      | None => mthrow KeyError
      | Some v =>
          vs ← truthy_values column_name records';
          mret (if truthy v then v :: vs else vs)
      end
  end.

(** [sorted(xs)]: [<] orders two texts and two integers and raises
    [TypeError] between a text and an integer, and no list that holds both
    can be sorted without comparing one with the other. *)
Definition sorted (xs : list cell) : M (list cell) :=
  match texts xs, numbers xs with
  | ts, [] => mret (Str <$> merge_sort (λ a b, str_le a b) ts)
  | [], zs => mret (Num <$> merge_sort Z.le zs)
  | _ :: _, _ :: _ => mthrow TypeError
  end.

(** [sorted(list(set(xs)))]: the set drops the repetitions. *)
Definition sorted_set (xs : list cell) : M (list cell) :=
  sorted (elements (list_to_set xs : gset cell)).

Definition get_unique_values (E : env) (column_name : string) : M (list cell) :=
  try_except
    (records ← get_all_records E;
     vs ← truthy_values column_name records;
     sorted_set vs)
    (λ e,
     logger_error ("Error getting unique values for " +:+ column_name) e;;
     mret []).

(** ** [generate_push_notifications] *)

(** The request is built from the six arguments and the clock and posted
    once; how it ends is [deepseek E].  Both [except] clauses log and return
    [None]. *)
Definition generate_push_notifications (E : env)
    (username product country language app_link message : str) : M (option str) :=
  match deepseek E with
  | Completion content => mret (Some content)
  | ConnectionFailed | TimedOut | BadStatus | InvalidJSON =>
      logger_error "Network error in generate_push_notifications" RequestException;;
      mret None
  | UnexpectedShape =>
      logger_error "Error generating push content with DeepSeek" ResponseShapeError;;
      mret None
  end.

(** ** The handlers *)

(** What a handler reads of the incoming [Update]: the sender's id and
    username ([None] when the account has none) and the message's text. *)
Record update := Update {
  effective_user_id : Z;
  effective_user_username : option str;
  message_text : str
}.

(** [ReplyKeyboardMarkup([[x] for x in xs], ...)]: one button per row. *)
Definition one_per_row (xs : list cell) : option (list (list cell)) :=
  Some ((λ x, [x]) <$> xs).

Definition restart_text : str :=
  lit "Please start over with /start" ++ nl ++ lit "If you need help, use /help command.".

Definition no_content_text : str :=
  lit "Sorry, no content found matching your criteria. Try different options.".

Definition content_error_text : str :=
  lit "An error occurred while getting content." ++ nl ++ lit "Please try again with /start".

(** The first four characters are the ones the source file holds in this
    literal. *)
Definition generating_text : str :=
  [0xF0; 0x178; 0x201D; 0x201E]%N ++ lit " Generating push notifications... Please wait.".

Definition more_text : str :=
  lit "Want to generate more push notifications? Type /start".

Definition could_not_generate_text : str :=
  [0xF0; 0x178; 0x2DC; 0x2022]%N ++ lit " Sorry, couldn't generate push notifications."
  ++ nl ++ lit "Please try again with /start".

Definition generation_error_text : str :=
  lit "An error occurred while generating notifications." ++ nl
  ++ lit "Please try again with /start".

Definition handler_error_text : str :=
  lit "An error occurred. Please try again with /start".

(** [start_command] *)
Definition start_command (E : env) (u : update) : M unit :=
  try_except
    (reply_text E
       (Message (lit "Welcome! Choose an option:")
          (Some [[Str (lit "Generate Content")]; [Str (lit "Use push-generator")]]));;
     put_user (effective_user_id u) (UserState None ∅))
    (λ e,
     logger_error "Error in start_command" e;;
     reply_text E (plain (lit "An error occurred. Please try again."))).

(** The block both terminal steps end with: a text longer than 4096
    characters is sent in parts, a shorter one as it is. *)
Definition reply_in_parts (E : env) (response : str) : M unit :=
  if 4096 <? length response
  then for_each (λ part, reply_text E (plain part)) (parts 4096 response)
  else reply_text E (plain response).

(** The condition of the list comprehension of the FORMAT step, an [and]
    chain that reads [user_data[key]] only as far as it gets. *)
Definition matches (user_data : gmap string str) (r : record) : M bool :=
  a ← getitem user_data "audience";
  if negb (bool_decide (audience r = Str a)) then mret false else
  l ← getitem user_data "language";
  if negb (bool_decide (language r = Str l)) then mret false else
  c ← getitem user_data "country";
  if negb (bool_decide (country r = Str c)) then mret false else
  t ← getitem user_data "topic";
  if negb (bool_decide (topic r = Str t)) then mret false else
  f ← getitem user_data "format";
  mret (bool_decide (format r = Str f)).

Fixpoint matching (user_data : gmap string str) (all_records : list record)
    : M (list record) :=
  match all_records with
  | [] => mret []
  | r :: rest =>
      b ← matches user_data r;
      rs ← matching user_data rest;
      mret (if b : bool then r :: rs else rs)
  end.

(** [if 'image_id' in random_record and random_record['image_id']: ...] *)
Definition with_image (E : env) (random_record : record) (response : str) : M str :=
  match image_id random_record with
  | Some id =>
      if truthy id then
        try_except
          (link ← files_get_link E id;
           mret (response ++ nl ++ nl ++ lit "Image: " ++ link))
          (λ e, logger_error "Error getting image" e;; mret response)
      else mret response
  | None => mret response
  end.

(** The [try] block of the branch [elif state == FORMAT]. *)
Definition format_try (E : env) (user_id : Z) (message_text : str) : M unit :=
  init_google_services E;;
  set_data user_id "format" message_text;;
  u ← get_user user_id;
  let user_data := data u in
  all_records ← get_all_records E;
  matching_records ← matching user_data all_records;
  match matching_records : list record with
  | _ :: _ =>
      random_record ← random_choice E matching_records;
      let response := lit "Here's your content:" ++ nl ++ nl ++ to_str (text random_record) in
      response ← with_image E random_record response;
      reply_in_parts E response
  | [] => reply_text E (plain no_content_text)
  end.

(** The branch [elif state == FORMAT]. *)
Definition format_step (E : env) (user_id : Z) (message_text : str) : M unit :=
  try_finally
    (try_except
       (format_try E user_id message_text)
       (λ e,
        logger_error "Error in FORMAT state" e;;
        reply_text E (plain content_error_text)))
    (del_user user_id).

(** [update.effective_user.username or 'anonymous'] *)
Definition username_or_anonymous (u : update) : str :=
  match effective_user_username u with
  | Some (c :: name) => c :: name
  | _ => lit "anonymous"
  end.

(** The [try] block of the branch [elif state == 'awaiting_message']. *)
Definition message_try (E : env) (u : update) : M unit :=
  let user_id := effective_user_id u in
  set_data user_id "message" (message_text u);;
  reply_text E (plain generating_text);;
  let username := username_or_anonymous u in
  st ← get_user user_id;
  let user_data := data st in
  product ← getitem user_data "product";
  country ← getitem user_data "country";
  language ← getitem user_data "language";
  app_link ← getitem user_data "app_link";
  message ← getitem user_data "message";
  push_content ←
    generate_push_notifications E username product country language app_link message;
  match push_content : option str with
  | Some (c :: content) =>
      reply_in_parts E (c :: content);;
      reply_text E (plain more_text)
  | _ => reply_text E (plain could_not_generate_text)
  end.

(** The branch [elif state == 'awaiting_message']. *)
Definition message_step (E : env) (u : update) : M unit :=
  try_finally
    (try_except
       (message_try E u)
       (λ e,
        logger_error "Error in awaiting_message state" e;;
        reply_text E (plain generation_error_text)))
    (del_user (effective_user_id u)).

(** A FLOW-A step before the last: store the answer, fetch the choices of
    the next column, prompt, move on. *)
Definition choice_step (E : env) (user_id : Z) (message_text : str)
    (key column : string) (prompt : str) (next : step) : M unit :=
  set_data user_id key message_text;;
  init_google_services E;;
  values ← get_unique_values E column;
  reply_text E (Message prompt (one_per_row values));;
  set_state user_id (Some next).

(** A FLOW-B step before the last: store the answer, ask the next question,
    move on. *)
Definition question_step (E : env) (user_id : Z) (message_text : str)
    (key : string) (question : str) (next : step) : M unit :=
  set_data user_id key message_text;;
  reply_text E (plain question);;
  set_state user_id (Some next).

(** The [try] block of [handle_message]. *)
Definition handle_message_try (E : env) (u : update) : M unit :=
  let user_id := effective_user_id u in
  known ← contains user_id;
  if negb known then reply_text E (plain restart_text) else
  let message_text := message_text u in
  entry ← get_user user_id;
  match state entry with
  | None =>
      if decide (message_text = lit "Generate Content") then
        init_google_services E;;
        audiences ← get_unique_values E "audience";
        reply_text E (Message (lit "Please select your audience:") (one_per_row audiences));;
        set_state user_id (Some AUDIENCE)
      else if decide (message_text = lit "Use push-generator") then
        reply_text E (plain (lit "What's your product name?"));;
        set_state user_id (Some awaiting_product)
      else mret ()
  | Some AUDIENCE =>
      choice_step E user_id message_text "audience" "language"
        (lit "Great! Now select the language:") LANGUAGE
  | Some LANGUAGE =>
      choice_step E user_id message_text "language" "country"
        (lit "Perfect! Choose the country:") COUNTRY
  | Some COUNTRY =>
      choice_step E user_id message_text "country" "topic"
        (lit "Choose the topic:") TOPIC
  | Some TOPIC =>
      choice_step E user_id message_text "topic" "format"
        (lit "Finally, choose the format:") FORMAT
  | Some FORMAT => format_step E user_id message_text
  | Some awaiting_product =>
      question_step E user_id message_text "product"
        (lit "Which country are you targeting?") awaiting_country
  | Some awaiting_country =>
      question_step E user_id message_text "country"
        (lit "What language should the copy be in?") awaiting_language
  | Some awaiting_language =>
      question_step E user_id message_text "language"
        (lit "Please provide the App Store/Google Play link:") awaiting_link
  | Some awaiting_link =>
      question_step E user_id message_text "app_link"
        (lit "What message do you want to convey?") awaiting_message
  | Some awaiting_message => message_step E u
  end.

(** [handle_message] *)
Definition handle_message (E : env) (u : update) : M unit :=
  try_except (handle_message_try E u)
    (λ e,
     logger_error "Error in handle_message" e;;
     reply_text E (plain handler_error_text)).
(** * Properties *)

(** ** The order on text *)

Section order.

Lemma str_le_refl (a : str) : str_le a a.
Proof.
  induction a as [|x a IH]; simpl; [done|].
  rewrite N.ltb_irrefl. done.
Qed.

Lemma str_le_total (a b : str) : str_le a b ∨ str_le b a.
Proof.
  revert b. induction a as [|x a IH]; intros [|y b]; simpl; auto.
  destruct (N.ltb_spec x y), (N.ltb_spec y x); auto; lia.
Qed.

Lemma str_le_trans (a b c : str) : str_le a b → str_le b c → str_le a c.
Proof.
  revert b c. induction a as [|x a IH]; intros [|y b] [|z c]; simpl; try done.
  destruct (N.ltb_spec x y), (N.ltb_spec y x), (N.ltb_spec y z), (N.ltb_spec z y),
    (N.ltb_spec x z), (N.ltb_spec z x); try done; try lia.
  apply IH.
Qed.

Lemma str_le_antisym (a b : str) : str_le a b → str_le b a → a = b.
Proof.
  revert b. induction a as [|x a IH]; intros [|y b]; simpl; try done.
  destruct (N.ltb_spec x y), (N.ltb_spec y x); try done; try lia.
  intros. f_equal; [lia | auto].
Qed.

Global Instance str_le_Total : Total (λ a b : str, str_le a b : Prop).
Proof. intros a b. apply str_le_total. Qed.

Global Instance str_le_Transitive : Transitive (λ a b : str, str_le a b : Prop).
Proof. intros a b c. apply str_le_trans. Qed.

End order.

(** ** Ranges, slices and parts *)

Section parts.

Variable n : nat.
Hypothesis n_pos : 0 < n.

Lemma length_range_from fuel i stop :
  stop - i ≤ fuel → length (range_from fuel i stop n) = (stop - i + (n - 1)) / n.
Proof.
  revert i. induction fuel as [|fuel IH]; intros i Hf; simpl.
  - replace (stop - i) with 0 by lia. symmetry. apply Nat.div_small. lia.
  - destruct (Nat.ltb_spec i stop) as [Hlt|Hge]; simpl.
    + rewrite IH by lia.
      destruct (le_lt_dec n (stop - i)) as [Hn|Hn].
      * replace (stop - i + (n - 1)) with (stop - (i + n) + (n - 1) + 1 * n) by lia.
        rewrite Nat.div_add by lia. lia.
      * replace (stop - (i + n)) with 0 by lia.
        replace (stop - i + (n - 1)) with (stop - i - 1 + 1 * n) by lia.
        rewrite Nat.div_add by lia.
        rewrite !Nat.div_small by lia. done.
    + replace (stop - i) with 0 by lia. symmetry. apply Nat.div_small. lia.
Qed.

Lemma concat_slices {A} (l : list A) fuel i :
  length l - i ≤ fuel →
  concat ((λ i, slice l i (i + n)) <$> range_from fuel i (length l) n) = drop i l.
Proof.
  revert i. induction fuel as [|fuel IH]; intros i Hf; simpl.
  - rewrite drop_ge by lia. done.
  - destruct (Nat.ltb_spec i (length l)) as [Hlt|Hge]; simpl.
    + rewrite IH by lia. unfold slice.
      replace (i + n - i) with n by lia.
      rewrite <- drop_drop. apply take_drop.
    + rewrite drop_ge by lia. done.
Qed.

Lemma length_parts (response : str) :
  length (parts n response) = (length response + (n - 1)) / n.
Proof.
  unfold parts, range. rewrite length_fmap, length_range_from by lia.
  f_equal. lia.
Qed.

Lemma concat_parts (response : str) : concat (parts n response) = response.
Proof. unfold parts, range. rewrite concat_slices by lia. apply drop_0. Qed.

Lemma parts_short (response : str) :
  Forall (λ part, length part ≤ n) (parts n response).
Proof.
  unfold parts. apply Forall_fmap, Forall_forall. intros i _. simpl.
  unfold slice. rewrite length_take. lia.
Qed.

End parts.

(** ** Running the monad *)

Ltac unfold_M := unfold mbind, M_bind, mret, M_ret, mthrow, M_throw in *.

Lemma for_each_reply E (ps : list str) σ sent lg :
  (∀ n, reply_raises E n = false) →
  for_each (λ part, reply_text E (plain part)) ps (World σ sent lg)
  = (Ok (), World σ (sent ++ (plain <$> ps)) lg).
Proof.
  intros Hr. revert sent. induction ps as [|p ps IH]; intros sent; simpl.
  - unfold_M. by rewrite app_nil_r.
  - unfold_M. unfold reply_text at 1. simpl. rewrite Hr, IH.
    by rewrite <- app_assoc.
Qed.

(** C2. A response longer than 4096 characters goes out as
    ceil(length / 4096) consecutive parts of at most 4096 characters each,
    in order, and the parts put together are the response; a response of at
    most 4096 characters goes out as one message.  (Telegram accepting every
    reply.) *)
Theorem reply_in_parts_chunks (E : env) (response : str) (w : world) :
  (∀ n, reply_raises E n = false) →
  ∃ chunks : list str,
    reply_in_parts E response w
    = (Ok (), World (user_states w) (replies w ++ (plain <$> chunks)) (logged w))
    ∧ concat chunks = response
    ∧ Forall (λ chunk, length chunk ≤ 4096) chunks
    ∧ (4096 < length response → length chunks = (length response + 4095) / 4096)
    ∧ (length response ≤ 4096 → chunks = [response]).
Proof.
  intros Hr. destruct w as [σ sent lg]. unfold reply_in_parts. simpl.
  destruct (Nat.ltb_spec 4096 (length response)) as [Hlong|Hshort].
  - exists (parts 4096 response). split; [by apply for_each_reply|].
    split; [apply concat_parts; lia|].
    split; [apply parts_short; lia|].
    split; [|lia]. intros _. rewrite length_parts by lia. done.
  - exists [response]. split.
    + unfold reply_text. simpl. by rewrite Hr.
    + split; [simpl; apply app_nil_r|].
      split; [by apply Forall_singleton|].
      split; [lia|done].
Qed.

Lemma reply_in_parts_chunks_witness :
  ∃ chunks : list str,
    reply_in_parts (Env true None (λ _, None) 0 TimedOut (λ _, false))
      (replicate 4097 65%N) (World ∅ [] [])
    = (Ok (), World ∅ ([] ++ (plain <$> chunks)) [])
    ∧ concat chunks = replicate 4097 65%N
    ∧ Forall (λ chunk, length chunk ≤ 4096) chunks
    ∧ (4096 < length (replicate 4097 65%N : str)
       → length chunks = (length (replicate 4097 65%N : str) + 4095) / 4096)
    ∧ (length (replicate 4097 65%N : str) ≤ 4096 → chunks = [replicate 4097 65%N]).
Proof.
  apply (reply_in_parts_chunks (Env true None (λ _, None) 0 TimedOut (λ _, false))
           (replicate 4097 65%N) (World ∅ [] [])).
  intros n. reflexivity.
Defined.

Example parts_4097 :
  length <$> parts 4096 (replicate 4097 65%N) = [4096; 1].
Proof. vm_compute. reflexivity. Qed.

(** ** [get_unique_values] *)

(** The values a column holds over the records. *)
Definition holds (records : list record) (column_name : string) (v : cell) : Prop :=
  ∃ r, r ∈ records ∧ get_field r column_name = Some v.

(** The truthy cells of a column, in the order of the records. *)
Definition truthy_cells (column_name : string) (records : list record) : list cell :=
  filter (λ v, truthy v) (omap (λ r, get_field r column_name) records).

(** [a <= b] where [<] does not raise: between two texts and between two
    integers. *)
Definition cell_le (a b : cell) : Prop :=
  match a, b with
  | Str s, Str t => str_le s t
  | Num x, Num y => (x ≤ y)%Z
  | _, _ => False
  end.

Lemma elem_of_truthy_cells column_name records v :
  v ∈ truthy_cells column_name records ↔ truthy v ∧ holds records column_name v.
Proof.
  unfold truthy_cells, holds. rewrite list_elem_of_filter, list_elem_of_omap. done.
Qed.

Lemma truthy_values_ok column_name records w :
  (∀ r, r ∈ records → is_Some (get_field r column_name)) →
  truthy_values column_name records w = (Ok (truthy_cells column_name records), w).
Proof.
  induction records as [|r records IH]; intros Hcol; simpl; [done|].
  destruct (Hcol r) as [x Hx]; [by left|]. rewrite Hx.
  unfold_M. rewrite IH by (intros r' Hr'; apply Hcol; by right).
  unfold truthy_cells. simpl. rewrite Hx. simpl.
  rewrite filter_cons. destruct (truthy x); by case_decide.
Qed.

Lemma truthy_values_raise column_name records w r :
  r ∈ records → get_field r column_name = None →
  truthy_values column_name records w = (Raise KeyError, w).
Proof.
  intros Hr Hnone. induction records as [|r' records IH]; simpl.
  - by apply elem_of_nil in Hr.
  - destruct (get_field r' column_name) as [v|] eqn:Hf; [|done].
    apply elem_of_cons in Hr as [->|Hr]; [congruence|].
    unfold_M. by rewrite IH.
Qed.

Lemma texts_all (xs : list cell) : numbers xs = [] → Str <$> texts xs = xs.
Proof.
  induction xs as [|[s|z] xs IH]; [done| |done].
  intros Hn. change (Str s :: (Str <$> texts xs) = Str s :: xs).
  by rewrite IH.
Qed.

Lemma numbers_all (xs : list cell) : texts xs = [] → Num <$> numbers xs = xs.
Proof.
  induction xs as [|[s|z] xs IH]; [done|done|].
  intros Hn. change (Num z :: (Num <$> numbers xs) = Num z :: xs).
  by rewrite IH.
Qed.

Lemma elem_of_texts (xs : list cell) s : s ∈ texts xs ↔ Str s ∈ xs.
Proof.
  unfold texts. rewrite list_elem_of_omap. split.
  - intros ([s'|z] & Hin & [= <-]). done.
  - intros Hin. by exists (Str s).
Qed.

Lemma elem_of_numbers (xs : list cell) z : z ∈ numbers xs ↔ Num z ∈ xs.
Proof.
  unfold numbers. rewrite list_elem_of_omap. split.
  - intros ([s|z'] & Hin & [= <-]). done.
  - intros Hin. by exists (Num z).
Qed.

(** [sorted] returns a sorted rearrangement of its argument or raises
    [TypeError]; it raises exactly when a text and an integer are both
    there. *)
Lemma sorted_ok (xs : list cell) :
  (∀ s z, Str s ∈ xs → Num z ∈ xs → False) →
  ∃ ys, (∀ w, sorted xs w = (Ok ys, w)) ∧ ys ≡ₚ xs ∧ StronglySorted cell_le ys.
Proof.
  intros Hkind.
  destruct (numbers xs) as [|z zs] eqn:Hnumbers.
  - exists (Str <$> merge_sort (λ a b, str_le a b) (texts xs)). split; [|split].
    + intros w. unfold sorted. rewrite Hnumbers. by destruct (texts xs).
    + rewrite merge_sort_Permutation. by rewrite texts_all.
    + eapply StronglySorted_fmap; [|apply (StronglySorted_merge_sort _)]. done.
  - destruct (texts xs) as [|s ts] eqn:Htexts.
    + exists (Num <$> merge_sort Z.le (z :: zs)). split; [|split].
      * intros w. unfold sorted. by rewrite Hnumbers, Htexts.
      * rewrite merge_sort_Permutation, <- Hnumbers. by rewrite numbers_all.
      * eapply StronglySorted_fmap; [|apply (StronglySorted_merge_sort _)]. done.
    + destruct (Hkind s z).
      * apply elem_of_texts. rewrite Htexts. by left.
      * apply elem_of_numbers. rewrite Hnumbers. by left.
Qed.

Lemma sorted_raise (xs : list cell) s z w :
  Str s ∈ xs → Num z ∈ xs → sorted xs w = (Raise TypeError, w).
Proof.
  intros Hs%elem_of_texts Hz%elem_of_numbers. unfold sorted.
  destruct (texts xs); [by apply elem_of_nil in Hs|].
  destruct (numbers xs); [by apply elem_of_nil in Hz|]. done.
Qed.

(** The column holds a (truthy) text and a (truthy) integer. *)
Definition mixed (records : list record) (column_name : string) : Prop :=
  ∃ s z, holds records column_name (Str s) ∧ s ≠ []
         ∧ holds records column_name (Num z) ∧ z ≠ 0%Z.

Lemma mixed_elem_of records column_name s z :
  Str s ∈ truthy_cells column_name records →
  Num z ∈ truthy_cells column_name records →
  mixed records column_name.
Proof.
  intros [Hs ?]%elem_of_truthy_cells [Hz ?]%elem_of_truthy_cells.
  exists s, z. split; [done|]. split; [by destruct s|]. split; [done|]. by destruct z.
Qed.

Lemma truthy_Str s : truthy (Str s) ↔ s ≠ [].
Proof. by destruct s. Qed.

Lemma truthy_Num z : truthy (Num z) ↔ z ≠ 0%Z.
Proof. by destruct z. Qed.

Lemma mixed_dec records column_name :
  mixed records column_name ∨ ¬ mixed records column_name.
Proof.
  destruct (texts (truthy_cells column_name records)) as [|s ts] eqn:Htexts.
  { right. intros (s & z & Hs & Hne & _).
    assert (s ∈ texts (truthy_cells column_name records)) as Hin.
    { apply elem_of_texts, elem_of_truthy_cells. split; [by apply truthy_Str|done]. }
    rewrite Htexts in Hin. by apply elem_of_nil in Hin. }
  destruct (numbers (truthy_cells column_name records)) as [|z zs] eqn:Hnumbers.
  { right. intros (s' & z & _ & _ & Hz & Hne).
    assert (z ∈ numbers (truthy_cells column_name records)) as Hin.
    { apply elem_of_numbers, elem_of_truthy_cells. split; [by apply truthy_Num|done]. }
    rewrite Hnumbers in Hin. by apply elem_of_nil in Hin. }
  left. apply (mixed_elem_of _ _ s z).
  - apply elem_of_texts. rewrite Htexts. by left.
  - apply elem_of_numbers. rewrite Hnumbers. by left.
Qed.

(** What [get_unique_values] does, by the ways it can go. *)
Lemma get_unique_values_run E column_name :
  (∃ records values,
      sheet_records E = Some records
      ∧ (∀ r, r ∈ records → is_Some (get_field r column_name))
      ∧ ¬ mixed records column_name
      ∧ NoDup values
      ∧ StronglySorted cell_le values
      ∧ (∀ v, v ∈ values ↔ truthy v ∧ holds records column_name v)
      ∧ ∀ w, get_unique_values E column_name w = (Ok values, w))
  ∨ (∃ e,
      ((sheet_records E = None ∧ e = GoogleError)
       ∨ (∃ records r, sheet_records E = Some records ∧ r ∈ records
                       ∧ get_field r column_name = None ∧ e = KeyError)
       ∨ (∃ records, sheet_records E = Some records
                     ∧ (∀ r, r ∈ records → is_Some (get_field r column_name))
                     ∧ mixed records column_name ∧ e = TypeError))
      ∧ ∀ w, get_unique_values E column_name w
             = (Ok [], World (user_states w) (replies w)
                         (logged w ++ [("Error getting unique values for " +:+ column_name, e)]))).
Proof.
  unfold get_unique_values, try_except, get_all_records, sorted_set.
  destruct (sheet_records E) as [records|] eqn:Hrec.
  2:{ right. exists GoogleError. split; [by left|]. intros w. by unfold_M. }
  destruct (decide (Forall (λ r, is_Some (get_field r column_name)) records))
    as [Hall|Hsome].
  2:{ right. apply not_Forall_Exists in Hsome; [|apply _].
      apply Exists_exists in Hsome as (r & Hr & Hnone).
      assert (get_field r column_name = None) as Hf.
      { destruct (get_field r column_name) eqn:Hg; [|done].
        destruct Hnone. rewrite Hg. by eexists. }
      exists KeyError. split; [right; left; by exists records, r|]. intros w.
      unfold_M. by rewrite (truthy_values_raise _ _ _ r). }
  rewrite Forall_forall in Hall.
  destruct (mixed_dec records column_name) as [Hmixed|Hpure].
  - right. exists TypeError. split; [right; right; by exists records|]. intros w.
    destruct Hmixed as (s & z & Hs & Hsne & Hz & Hzne).
    unfold_M. rewrite truthy_values_ok by done.
    rewrite (sorted_raise _ s z); [done| |].
    + apply elem_of_elements, elem_of_list_to_set, elem_of_truthy_cells.
      split; [by apply truthy_Str|done].
    + apply elem_of_elements, elem_of_list_to_set, elem_of_truthy_cells.
      split; [by apply truthy_Num|done].
  - left.
    set (cells := elements (list_to_set (truthy_cells column_name records) : gset cell)).
    assert (∀ s z, Str s ∈ cells → Num z ∈ cells → False) as Hkind.
    { intros s z Hs Hz. apply Hpure, (mixed_elem_of _ _ s z).
      - unfold cells in Hs. by rewrite elem_of_elements, elem_of_list_to_set in Hs.
      - unfold cells in Hz. by rewrite elem_of_elements, elem_of_list_to_set in Hz. }
    destruct (sorted_ok cells Hkind) as (values & Hrun & Hperm & Hsorted).
    exists records, values. split; [done|]. split; [done|]. split; [done|].
    split; [rewrite Hperm; apply NoDup_elements|]. split; [done|]. split.
    + intros v. rewrite Hperm. unfold cells.
      rewrite elem_of_elements, elem_of_list_to_set. apply elem_of_truthy_cells.
    + intros w. unfold_M. rewrite truthy_values_ok by done. fold cells.
      by rewrite Hrun.
Qed.

(** The choices [get_unique_values] returns for a column: its value does not
    depend on the world it runs in. *)
Definition offered (E : env) (column_name : string) : list cell :=
  match (get_unique_values E column_name (World ∅ [] [])).1 with
  | Ok values => values
  | Raise _ => []
  end.

Lemma get_unique_values_offered E column_name w :
  ∃ lg, get_unique_values E column_name w
        = (Ok (offered E column_name),
           World (user_states w) (replies w) (logged w ++ lg)).
Proof.
  unfold offered.
  destruct (get_unique_values_run E column_name)
    as [(records & values & _ & _ & _ & _ & _ & _ & Hrun)|(e & _ & Hrun)].
  - exists []. rewrite !Hrun. simpl. rewrite app_nil_r. by destruct w.
  - eexists. rewrite !Hrun. simpl. done.
Qed.

(** C9, as the code has it.  [get_unique_values] never raises and touches
    neither the store nor the replies.  What it returns is sorted and free
    of repetitions.  When the sheet is read and has the column, and the
    truthy values of the column are all texts or all integers, it is made of
    exactly those values: the empty text and zero are left out.  When the
    read fails, the column is missing, or the column holds both a text and
    an integer (so that [sorted] raises), the error is logged and the empty
    list is returned. *)
Theorem get_unique_values_sorted_distinct (E : env) (column_name : string) (w : world) :
  ∃ values lg,
    get_unique_values E column_name w
    = (Ok values, World (user_states w) (replies w) (logged w ++ lg))
    ∧ NoDup values
    ∧ StronglySorted cell_le values
    ∧ (∀ records,
         sheet_records E = Some records →
         (∀ r, r ∈ records → is_Some (get_field r column_name)) →
         ¬ mixed records column_name →
         lg = [] ∧ ∀ v, v ∈ values ↔ truthy v ∧ holds records column_name v)
    ∧ (sheet_records E = None →
       values = []
       ∧ lg = [("Error getting unique values for " +:+ column_name, GoogleError)])
    ∧ (∀ records r,
         sheet_records E = Some records → r ∈ records →
         get_field r column_name = None →
         values = []
         ∧ lg = [("Error getting unique values for " +:+ column_name, KeyError)])
    ∧ (∀ records,
         sheet_records E = Some records →
         (∀ r, r ∈ records → is_Some (get_field r column_name)) →
         mixed records column_name →
         values = []
         ∧ lg = [("Error getting unique values for " +:+ column_name, TypeError)]).
Proof.
  destruct (get_unique_values_run E column_name)
    as [(records & values & Hrec & Hcol & Hpure & Hnodup & Hsorted & Hvalues & Hrun)
       |(e & Hwhy & Hrun)].
  - exists values, []. rewrite Hrun, app_nil_r. split; [by destruct w|].
    split; [done|]. split; [done|]. split; [|split; [|split]].
    + intros records' Hrec' _ _. by assert (records' = records) as -> by congruence.
    + congruence.
    + intros records' r Hrec' Hr Hnone. assert (records' = records) as -> by congruence.
      destruct (Hcol r Hr) as [x Hx]. congruence.
    + intros records' Hrec' _ Hmixed. by assert (records' = records) as -> by congruence.
  - eexists [], _. rewrite Hrun. split; [done|].
    split; [constructor|]. split; [constructor|].
    destruct Hwhy as [[Hnone ->]|[(records & r & Hrec & Hr & Hnone & ->)
                                 |(records & Hrec & Hcol & Hmixed & ->)]].
    + split; [congruence|]. split; [done|]. split; congruence.
    + split; [|split; [congruence|split]].
      * intros records' Hrec' Hcol _. assert (records' = records) as -> by congruence.
        destruct (Hcol r Hr) as [x Hx]. congruence.
      * done.
      * intros records' Hrec' Hcol _. assert (records' = records) as -> by congruence.
        destruct (Hcol r Hr) as [x Hx]. congruence.
    + split; [|split; [congruence|split]].
      * intros records' Hrec' _ Hpure. by assert (records' = records) as -> by congruence.
      * intros records' r Hrec' Hr Hnone. assert (records' = records) as -> by congruence.
        destruct (Hcol r Hr) as [x Hx]. congruence.
      * done.
Qed.

(** C9, as the claim states it, fails in two ways.  On a sheet with an
    empty cell and a zero, both are values of the column and neither is
    returned.  On a sheet whose column holds 18 and "Teens", [sorted] raises
    [TypeError]: the values of the column are not returned at all, the
    result is the empty list and the error is logged. *)
Lemma get_unique_values_drops_values :
  let row audience := Record_ audience (Str (lit "English")) (Str (lit "USA"))
                        (Str (lit "Fitness")) (Str (lit "Image"))
                        (Str (lit "Move!")) None in
  let blanks := [row (Str (lit "Teens")); row (Str []); row (Str (lit "Adults"))] in
  let numeric := [row (Num 18); row (Str (lit "Teens")); row (Num 0); row (Str [])] in
  let E records := Env true (Some records) (λ _, None) 0 TimedOut (λ _, false) in
  ((get_unique_values (E blanks) "audience" (World ∅ [] [])).1
   = Ok [Str (lit "Adults"); Str (lit "Teens")]
   ∧ holds blanks "audience" (Str []))
  ∧ (get_unique_values (E numeric) "audience" (World ∅ [] [])
     = (Ok [], World ∅ [] [("Error getting unique values for audience", TypeError)])
     ∧ holds numeric "audience" (Num 18)
     ∧ holds numeric "audience" (Str (lit "Teens"))).
Proof.
  split; [split|split; [|split]].
  - vm_compute. reflexivity.
  - eexists. split; [right; left|]. reflexivity.
  - vm_compute. reflexivity.
  - eexists. split; [left|]. reflexivity.
  - eexists. split; [right; left|]. reflexivity.
Qed.

(** A column of integers is sorted as integers, not as text. *)
Example get_unique_values_sorts_numbers :
  let row audience := Record_ audience (Str (lit "English")) (Str (lit "USA"))
                        (Str (lit "Fitness")) (Str (lit "Image"))
                        (Str (lit "Move!")) None in
  let E := Env true (Some [row (Num 18); row (Num 5); row (Num 18); row (Num 0)])
             (λ _, None) 0 TimedOut (λ _, false) in
  get_unique_values E "audience" (World ∅ [] []) = (Ok [Num 5; Num 18], World ∅ [] []).
Proof. vm_compute. reflexivity. Qed.

(** A cell that is neither the empty text nor zero: what Python takes for
    true. *)
Definition filled (v : cell) : Prop := v ≠ Str [] ∧ v ≠ Num 0%Z.

Lemma truthy_filled v : truthy v ↔ filled v.
Proof.
  unfold filled. destruct v as [[|c s]|[|p|p]]; simpl; split; try done;
    intros [H1 H2]; by (destruct H1 || destruct H2).
Qed.

(** C10 for the helper: no choice is the empty text, nor zero. *)
Lemma get_unique_values_nonempty E column_name w :
  ∃ values w',
    get_unique_values E column_name w = (Ok values, w')
    ∧ Forall filled values.
Proof.
  destruct (get_unique_values_run E column_name)
    as [(records & values & _ & _ & _ & _ & _ & Hvalues & Hrun)|(e & _ & Hrun)];
    rewrite Hrun.
  - eexists _, _. split; [done|]. apply Forall_forall. intros v [Hv _]%Hvalues.
    by apply truthy_filled.
  - eexists _, _. split; [done|]. constructor.
Qed.

Lemma offered_nonempty E column_name : Forall filled (offered E column_name).
Proof.
  destruct (get_unique_values_nonempty E column_name (World ∅ [] []))
    as (values & w' & Hrun & Hne).
  unfold offered. by rewrite Hrun.
Qed.

(** ** Invariants of computations *)

(** [preserves I m Q]: run from a world in [I], [m] ends in a world in [I],
    whether it returns or raises, and a value it returns satisfies [Q]. *)
Definition preserves {A} (I : world → Prop) (m : M A) (Q : A → Prop) : Prop :=
  ∀ w, I w → I (m w).2 ∧ ∀ a, (m w).1 = Ok a → Q a.

Section preserves.

Context (I : world → Prop).

Lemma preserves_ret {A} (a : A) (Q : A → Prop) : Q a → preserves I (mret a) Q.
Proof. intros Ha w Hw. split; [done|]. intros a' [= <-]. done. Qed.

Lemma preserves_throw {A} (e : exn) (Q : A → Prop) : preserves I (mthrow e) Q.
Proof. intros w Hw. split; [done|]. intros a' [=]. Qed.

Lemma preserves_bind {A B} (m : M A) (f : A → M B) Q Q' :
  preserves I m Q → (∀ a, Q a → preserves I (f a) Q') → preserves I (m ≫= f) Q'.
Proof.
  intros Hm Hf w Hw. destruct (Hm w Hw) as [Hw' Hq]. unfold_M.
  destruct (m w) as [[a|e] w']; simpl in *; [|split; [done|intros ? [=]]].
  apply Hf; auto.
Qed.

Lemma preserves_try_except {A} (m : M A) (h : exn → M A) Q :
  preserves I m Q → (∀ e, preserves I (h e) Q) → preserves I (try_except m h) Q.
Proof.
  intros Hm Hh w Hw. destruct (Hm w Hw) as [Hw' Hq]. unfold try_except.
  destruct (m w) as [[a|e] w']; simpl in *; [by split|].
  by apply Hh.
Qed.

Lemma preserves_try_finally {A} (m : M A) (f : M unit) Q Q' :
  preserves I m Q → preserves I f Q' → preserves I (try_finally m f) Q.
Proof.
  intros Hm Hf w Hw. destruct (Hm w Hw) as [Hw' Hq]. unfold try_finally.
  destruct (m w) as [r w1]; simpl in *.
  destruct (Hf w1 Hw') as [Hw2 _].
  destruct (f w1) as [[[]|e] w2]; simpl in *; [by split|].
  split; [done|]. intros ? [=].
Qed.

Lemma preserves_for_each {A} (f : A → M unit) (l : list A) :
  (∀ x, x ∈ l → preserves I (f x) (λ _, True)) →
  preserves I (for_each f l) (λ _, True).
Proof.
  induction l as [|x l IH]; intros Hf; simpl.
  - by apply preserves_ret.
  - eapply preserves_bind; [apply Hf; by left|].
    intros _ _. apply IH. intros y Hy. apply Hf. by right.
Qed.

Lemma preserves_weaken {A} (m : M A) (Q Q' : A → Prop) :
  preserves I m Q → (∀ a, Q a → Q' a) → preserves I m Q'.
Proof. intros Hm HQ w Hw. destruct (Hm w Hw). split; auto. Qed.

(** A computation that leaves the world as it is keeps every invariant. *)
Lemma preserves_same {A} (m : M A) :
  (∀ w, (m w).2 = w) → preserves I m (λ _, True).
Proof. intros Hm w Hw. rewrite Hm. done. Qed.

Lemma preserves_getitem {K} `{Countable K} {V} (d : gmap K V) k :
  preserves I (getitem d k) (λ _, True).
Proof. apply preserves_same. intros w. unfold getitem. by destruct (d !! k). Qed.

Lemma preserves_get_user user_id : preserves I (get_user user_id) (λ _, True).
Proof.
  apply preserves_same. intros w. unfold get_user, getitem.
  by destruct (user_states w !! user_id).
Qed.

Lemma preserves_contains user_id : preserves I (contains user_id) (λ _, True).
Proof. by apply preserves_same. Qed.

Lemma preserves_get_all_records E : preserves I (get_all_records E) (λ _, True).
Proof.
  apply preserves_same. intros w. unfold get_all_records.
  by destruct (sheet_records E).
Qed.

Lemma preserves_files_get_link E id : preserves I (files_get_link E id) (λ _, True).
Proof.
  apply preserves_same. intros w. unfold files_get_link. by destruct (drive_link E id).
Qed.

Lemma preserves_random_choice {A} E (seq : list A) :
  preserves I (random_choice E seq) (λ _, True).
Proof.
  apply preserves_same. intros w. unfold random_choice.
  by destruct (seq !! _).
Qed.

Lemma preserves_matches user_data r : preserves I (matches user_data r) (λ _, True).
Proof.
  unfold matches.
  repeat first
    [ eapply preserves_bind; [apply preserves_getitem|intros ? _]
    | match goal with |- preserves _ (if ?b then _ else _) _ => destruct b end
    | by apply preserves_ret ].
Qed.

Lemma preserves_matching user_data all_records :
  preserves I (matching user_data all_records) (λ _, True).
Proof.
  induction all_records as [|r rest IH]; simpl; [by apply preserves_ret|].
  eapply preserves_bind; [apply preserves_matches|intros b _].
  eapply preserves_bind; [apply IH|intros rs _]. by apply preserves_ret.
Qed.

(** Invariants that do not look at the log. *)
Hypothesis I_log : ∀ σ sent lg lg', I (World σ sent lg) → I (World σ sent lg').

Lemma preserves_logger_error prefix e : preserves I (logger_error prefix e) (λ _, True).
Proof.
  intros [σ sent lg] Hw. split; [|done]. simpl. by eapply I_log.
Qed.

Lemma preserves_init_google_services E :
  preserves I (init_google_services E) (λ _, True).
Proof.
  unfold init_google_services. apply preserves_try_except.
  - destruct (google_ok E); [by apply preserves_ret|apply preserves_throw].
  - intros e. eapply preserves_bind; [apply preserves_logger_error|].
    intros _ _. apply preserves_throw.
Qed.

Lemma preserves_get_unique_values E column_name :
  preserves I (get_unique_values E column_name) (Forall filled).
Proof.
  intros w Hw.
  destruct (get_unique_values_offered E column_name w) as [lg ->]. simpl. split.
  - destruct w as [σ sent lg0]. by eapply I_log.
  - intros a [= <-]. apply offered_nonempty.
Qed.

Lemma preserves_generate_push_notifications E a b c d e f :
  preserves I (generate_push_notifications E a b c d e f) (λ _, True).
Proof.
  unfold generate_push_notifications.
  destruct (deepseek E);
    first [ by apply preserves_ret
          | eapply preserves_bind; [apply preserves_logger_error|];
            intros _ _; by apply preserves_ret ].
Qed.

End preserves.

(** ** The choices offered (C10) *)

(** No button of the message's keyboard has an empty label. *)
Definition no_empty_choice (m : message) : Prop :=
  ∀ rows, reply_markup m = Some rows → Forall (Forall filled) rows.

Definition choices_ok (w : world) : Prop := Forall no_empty_choice (replies w).

Lemma no_empty_choice_plain b : no_empty_choice (plain b).
Proof. intros rows [=]. Qed.

Lemma no_empty_choice_one_per_row b values :
  Forall filled values → no_empty_choice (Message b (one_per_row values)).
Proof.
  intros Hv rows [= <-]. apply Forall_fmap. eapply Forall_impl; [done|].
  intros v ?. by apply Forall_singleton.
Qed.

Lemma choices_ok_log σ sent lg lg' :
  choices_ok (World σ sent lg) → choices_ok (World σ sent lg').
Proof. done. Qed.

Lemma choices_reply_text E m :
  no_empty_choice m → preserves choices_ok (reply_text E m) (λ _, True).
Proof.
  intros Hm [σ sent lg] Hw. unfold reply_text, choices_ok in *. simpl in *.
  assert (Forall no_empty_choice (sent ++ [m])).
  { apply Forall_app. split; [done|]. by apply Forall_singleton. }
  by destruct (reply_raises E (length sent)).
Qed.

Lemma choices_put_user user_id u : preserves choices_ok (put_user user_id u) (λ _, True).
Proof. by intros [σ sent lg] Hw. Qed.

Lemma choices_del_user user_id : preserves choices_ok (del_user user_id) (λ _, True).
Proof.
  intros [σ sent lg] Hw. unfold del_user. simpl. by destruct (σ !! user_id).
Qed.

Lemma choices_set_state user_id s : preserves choices_ok (set_state user_id s) (λ _, True).
Proof.
  unfold set_state. eapply preserves_bind; [apply preserves_get_user|].
  intros u _. apply choices_put_user.
Qed.

Lemma choices_set_data user_id k v : preserves choices_ok (set_data user_id k v) (λ _, True).
Proof.
  unfold set_data. eapply preserves_bind; [apply preserves_get_user|].
  intros u _. apply choices_put_user.
Qed.


(** One step of a proof that a computation keeps an invariant, read off the
    head of the computation; [leaf] closes what depends on the invariant. *)
Ltac preserves_step leaf :=
  lazymatch goal with
  | |- preserves _ (let _ := _ in _) _ => cbv zeta
  | |- preserves _ (if ?b then _ else _) _ => destruct b
  | |- preserves _ (match ?x with _ => _ end) _ => destruct x
  | |- preserves _ (_ ≫= _) _ => eapply preserves_bind; [|intros ? ?]
  | |- preserves _ (mret _) _ => by apply preserves_ret
  | |- preserves _ (mthrow _) _ => apply preserves_throw
  | |- preserves _ (try_except _ _) _ => apply preserves_try_except; [|intros ?]
  | |- preserves _ (try_finally _ _) _ => eapply preserves_try_finally
  | |- preserves _ (for_each _ _) _ => apply preserves_for_each; intros ? _
  | |- preserves _ (get_user _) _ => apply preserves_get_user
  | |- preserves _ (contains _) _ => apply preserves_contains
  | |- preserves _ (getitem _ _) _ => apply preserves_getitem
  | |- preserves _ (get_all_records _) _ => apply preserves_get_all_records
  | |- preserves _ (files_get_link _ _) _ => apply preserves_files_get_link
  | |- preserves _ (random_choice _ _) _ => apply preserves_random_choice
  | |- preserves _ (matching _ _) _ => apply preserves_matching
  | |- preserves _ _ _ => leaf
  end.

Ltac choices_leaf :=
  lazymatch goal with
  | |- preserves _ (set_data _ _ _) _ => apply choices_set_data
  | |- preserves _ (set_state _ _) _ => apply choices_set_state
  | |- preserves _ (del_user _) _ => apply choices_del_user
  | |- preserves _ (put_user _ _) _ => apply choices_put_user
  | |- preserves _ (reply_text _ _) _ =>
      apply choices_reply_text;
      first [apply no_empty_choice_plain | by apply no_empty_choice_one_per_row]
  | |- preserves _ (logger_error _ _) _ => apply (preserves_logger_error _ choices_ok_log)
  | |- preserves _ (init_google_services _) _ =>
      apply (preserves_init_google_services _ choices_ok_log)
  | |- preserves _ (get_unique_values _ _) _ =>
      apply (preserves_get_unique_values _ choices_ok_log)
  | |- preserves _ (generate_push_notifications _ _ _ _ _ _ _) _ =>
      apply (preserves_generate_push_notifications _ choices_ok_log)
  end.

Ltac choices_step := preserves_step ltac:(idtac; choices_leaf).

Lemma choices_reply_in_parts E response :
  preserves choices_ok (reply_in_parts E response) (λ _, True).
Proof. unfold reply_in_parts. repeat choices_step. Qed.

Lemma choices_with_image E r response :
  preserves choices_ok (with_image E r response) (λ _, True).
Proof.
  unfold with_image. repeat choices_step.
Qed.

(** The same for the blocks of the handlers. *)
Ltac choices_block :=
  lazymatch goal with
  | |- preserves _ (with_image _ _ _) _ => apply choices_with_image
  | |- preserves _ (reply_in_parts _ _) _ => apply choices_reply_in_parts
  end.

Ltac choices_steps := repeat first [choices_block | choices_step].

Lemma choices_format_step E user_id text :
  preserves choices_ok (format_step E user_id text) (λ _, True).
Proof. unfold format_step, format_try. choices_steps. Qed.

Lemma choices_message_step E u :
  preserves choices_ok (message_step E u) (λ _, True).
Proof. unfold message_step, message_try. choices_steps. Qed.

Lemma choices_choice_step E user_id text key column prompt next :
  preserves choices_ok (choice_step E user_id text key column prompt next) (λ _, True).
Proof. unfold choice_step. choices_steps. Qed.

Lemma choices_question_step E user_id text key question next :
  preserves choices_ok (question_step E user_id text key question next) (λ _, True).
Proof. unfold question_step. choices_steps. Qed.

Ltac choices_branch :=
  lazymatch goal with
  | |- preserves _ (format_step _ _ _) _ => apply choices_format_step
  | |- preserves _ (message_step _ _) _ => apply choices_message_step
  | |- preserves _ (choice_step _ _ _ _ _ _ _) _ => apply choices_choice_step
  | |- preserves _ (question_step _ _ _ _ _ _) _ => apply choices_question_step
  end.

Lemma choices_handle_message E u :
  preserves choices_ok (handle_message E u) (λ _, True).
Proof.
  unfold handle_message, handle_message_try.
  repeat first [choices_branch | choices_step].
Qed.

(** C10. [get_unique_values] leaves out the empty cells: the values it
    returns hold no empty text (and no zero), whatever the column and the
    sheet, and so no keyboard [handle_message] sends has a button with an
    empty label. *)
Theorem no_empty_choice_offered (E : env) (column_name : string) (u : update) (w : world) :
  choices_ok w →
  (∃ values w',
      get_unique_values E column_name w = (Ok values, w')
      ∧ Forall filled values)
  ∧ choices_ok (handle_message E u w).2.
Proof.
  intros Hw. split.
  - apply get_unique_values_nonempty.
  - by apply choices_handle_message.
Qed.

Lemma no_empty_choice_offered_witness :
  let blank := Record_ (Str []) (Str (lit "English")) (Str (lit "USA"))
                       (Str (lit "Fitness")) (Str (lit "Image")) (Str (lit "Rest!"))
                       None in
  let teens := Record_ (Str (lit "Teens")) (Str (lit "English")) (Str (lit "USA"))
                       (Str (lit "Fitness")) (Str (lit "Image")) (Str (lit "Move!"))
                       None in
  let E := Env true (Some [blank; teens]) (λ _, None) 0 TimedOut (λ _, false) in
  let u := Update 7 None (lit "Generate Content") in
  let w := World {[ 7%Z := UserState None ∅ ]} [] [] in
  (∃ values w',
      get_unique_values E "audience" w = (Ok values, w')
      ∧ Forall filled values)
  ∧ choices_ok (handle_message E u w).2.
Proof.
  intros blank teens E u w.
  apply (no_empty_choice_offered E "audience" u w).
  unfold choices_ok. simpl. constructor.
Defined.

Example keyboard_skips_empty_cell :
  let blank := Record_ (Str []) (Str (lit "English")) (Str (lit "USA"))
                       (Str (lit "Fitness")) (Str (lit "Image")) (Str (lit "Rest!"))
                       None in
  let teens := Record_ (Str (lit "Teens")) (Str (lit "English")) (Str (lit "USA"))
                       (Str (lit "Fitness")) (Str (lit "Image")) (Str (lit "Move!"))
                       None in
  let E := Env true (Some [blank; teens]) (λ _, None) 0 TimedOut (λ _, false) in
  let u := Update 7 None (lit "Generate Content") in
  let w := World {[ 7%Z := UserState None ∅ ]} [] [] in
  replies (handle_message E u w).2
  = [Message (lit "Please select your audience:") (Some [[Str (lit "Teens")]])].
Proof. vm_compute. reflexivity. Qed.

(** ** The store across a terminal step (C4) *)

(** The user's entry is there and the other entries are those of [σ]. *)
Definition kept (σ : gmap Z user_state) (user_id : Z) (w : world) : Prop :=
  is_Some (user_states w !! user_id)
  ∧ ∀ other, other ≠ user_id → user_states w !! other = σ !! other.

Lemma kept_log σ user_id σ' sent lg lg' :
  kept σ user_id (World σ' sent lg) → kept σ user_id (World σ' sent lg').
Proof. done. Qed.

Lemma kept_reply_text σ user_id E m :
  preserves (kept σ user_id) (reply_text E m) (λ _, True).
Proof.
  intros [σ' sent lg] Hw. unfold reply_text. simpl.
  by destruct (reply_raises E (length sent)).
Qed.

Lemma kept_put_user σ user_id u :
  preserves (kept σ user_id) (put_user user_id u) (λ _, True).
Proof.
  intros [σ' sent lg] [Hin Hout]. split; [|done]. split; simpl in *.
  - rewrite lookup_insert_eq. by eexists.
  - intros other Hne. rewrite lookup_insert_ne by done. by apply Hout.
Qed.

Lemma kept_set_data σ user_id k v :
  preserves (kept σ user_id) (set_data user_id k v) (λ _, True).
Proof.
  unfold set_data. eapply preserves_bind; [apply preserves_get_user|].
  intros u _. apply kept_put_user.
Qed.

Ltac kept_leaf :=
  lazymatch goal with
  | |- preserves _ (set_data _ _ _) _ => apply kept_set_data
  | |- preserves _ (reply_text _ _) _ => apply kept_reply_text
  | |- preserves _ (logger_error _ _) _ => apply (preserves_logger_error _ (kept_log _ _))
  | |- preserves _ (init_google_services _) _ =>
      apply (preserves_init_google_services _ (kept_log _ _))
  | |- preserves _ (generate_push_notifications _ _ _ _ _ _ _) _ =>
      apply (preserves_generate_push_notifications _ (kept_log _ _))
  end.

Ltac kept_step := preserves_step ltac:(idtac; kept_leaf).

Lemma kept_reply_in_parts σ user_id E response :
  preserves (kept σ user_id) (reply_in_parts E response) (λ _, True).
Proof. unfold reply_in_parts. repeat kept_step. Qed.

Lemma kept_with_image σ user_id E r response :
  preserves (kept σ user_id) (with_image E r response) (λ _, True).
Proof. unfold with_image. repeat kept_step. Qed.

Ltac kept_block :=
  lazymatch goal with
  | |- preserves _ (with_image _ _ _) _ => apply kept_with_image
  | |- preserves _ (reply_in_parts _ _) _ => apply kept_reply_in_parts
  end.

(** A [try] block that keeps the user's entry, followed by [finally: del
    user_states[user_id]], ends with the entry deleted and the rest of the
    store as it was. *)
Lemma finally_del_user {A} σ user_id (m : M A) Q w :
  preserves (kept σ user_id) m Q → kept σ user_id w →
  user_states (try_finally m (del_user user_id) w).2 = delete user_id σ.
Proof.
  intros Hm Hw. destruct (Hm w Hw) as [[[x Hx] Hout] _]. unfold try_finally.
  destruct (m w) as [r [σ1 sent lg]]. simpl in *. unfold del_user. simpl.
  rewrite Hx. simpl. apply map_eq. intros other.
  destruct (decide (other = user_id)) as [->|Hne].
  - by rewrite !lookup_delete_eq.
  - rewrite !lookup_delete_ne by done. by apply Hout.
Qed.

Lemma format_step_deletes E user_id text w :
  is_Some (user_states w !! user_id) →
  user_states (format_step E user_id text w).2 = delete user_id (user_states w).
Proof.
  intros Hu. unfold format_step, format_try. eapply finally_del_user; [|by split].
  repeat first [kept_block | kept_step].
Qed.

Lemma message_step_deletes E u w :
  is_Some (user_states w !! effective_user_id u) →
  user_states (message_step E u w).2 = delete (effective_user_id u) (user_states w).
Proof.
  intros Hu. unfold message_step, message_try. eapply finally_del_user; [|by split].
  repeat first [kept_block | kept_step].
Qed.

(** The [except] clause of [handle_message] does not touch the store. *)
Lemma handle_message_except E (m : M unit) w :
  user_states (try_except m
     (λ e, logger_error "Error in handle_message" e;;
           reply_text E (plain handler_error_text)) w).2
  = user_states (m w).2.
Proof.
  unfold try_except. destruct (m w) as [[[]|e] [σ sent lg]]; simpl; [done|].
  unfold_M. unfold logger_error, reply_text. simpl.
  by destruct (reply_raises E (length sent)).
Qed.

(** How [handle_message_try] starts for a user with an entry. *)
Lemma handle_message_try_known E u w entry :
  user_states w !! effective_user_id u = Some entry →
  handle_message_try E u w =
  match state entry with
  | None =>
      if decide (message_text u = lit "Generate Content") then
        (init_google_services E;;
         audiences ← get_unique_values E "audience";
         reply_text E (Message (lit "Please select your audience:") (one_per_row audiences));;
         set_state (effective_user_id u) (Some AUDIENCE)) w
      else if decide (message_text u = lit "Use push-generator") then
        (reply_text E (plain (lit "What's your product name?"));;
         set_state (effective_user_id u) (Some awaiting_product)) w
      else (Ok (), w)
  | Some AUDIENCE =>
      choice_step E (effective_user_id u) (message_text u) "audience" "language"
        (lit "Great! Now select the language:") LANGUAGE w
  | Some LANGUAGE =>
      choice_step E (effective_user_id u) (message_text u) "language" "country"
        (lit "Perfect! Choose the country:") COUNTRY w
  | Some COUNTRY =>
      choice_step E (effective_user_id u) (message_text u) "country" "topic"
        (lit "Choose the topic:") TOPIC w
  | Some TOPIC =>
      choice_step E (effective_user_id u) (message_text u) "topic" "format"
        (lit "Finally, choose the format:") FORMAT w
  | Some FORMAT => format_step E (effective_user_id u) (message_text u) w
  | Some awaiting_product =>
      question_step E (effective_user_id u) (message_text u) "product"
        (lit "Which country are you targeting?") awaiting_country w
  | Some awaiting_country =>
      question_step E (effective_user_id u) (message_text u) "country"
        (lit "What language should the copy be in?") awaiting_language w
  | Some awaiting_language =>
      question_step E (effective_user_id u) (message_text u) "language"
        (lit "Please provide the App Store/Google Play link:") awaiting_link w
  | Some awaiting_link =>
      question_step E (effective_user_id u) (message_text u) "app_link"
        (lit "What message do you want to convey?") awaiting_message w
  | Some awaiting_message => message_step E u w
  end.
Proof.
  intros Hu. unfold handle_message_try, contains, get_user, getitem. unfold_M.
  rewrite Hu. rewrite bool_decide_eq_true_2 by (by eexists). simpl.
  rewrite Hu.
  destruct (state entry) as [[]|]; try done.
  repeat case_decide; done.
Qed.

(** C4. A terminal step of either flow (FORMAT, awaiting_message) ends with
    the user's entry deleted from the store, whatever the outside world
    answers: content sent, nothing found, or an exception on the way.  The
    other entries are untouched. *)
Theorem terminal_step_deletes_state (E : env) (u : update) (w : world) (entry : user_state) :
  user_states w !! effective_user_id u = Some entry →
  state entry = Some FORMAT ∨ state entry = Some awaiting_message →
  user_states (handle_message E u w).2 = delete (effective_user_id u) (user_states w).
Proof.
  intros Hu Hterminal. unfold handle_message. rewrite handle_message_except.
  rewrite (handle_message_try_known _ _ _ _ Hu).
  destruct Hterminal as [-> | ->].
  - apply format_step_deletes. by eexists.
  - apply message_step_deletes. by eexists.
Qed.

Lemma terminal_step_deletes_state_witness :
  let E := Env false None (λ _, None) 0 TimedOut (λ _, true) in
  let u := Update 7 None (lit "Image") in
  let entry := UserState (Some FORMAT) {[ "audience" := lit "Teens" ]} in
  let w := World {[ 7%Z := entry; 8%Z := UserState None ∅ ]} [] [] in
  user_states (handle_message E u w).2 = delete 7%Z (user_states w).
Proof.
  intros E u entry w.
  apply (terminal_step_deletes_state E u w entry).
  - reflexivity.
  - left. reflexivity.
Defined.

(** ** A user without an entry (C6) *)

(** C6. A text message from a user who has no entry in the store is
    answered with the restart instruction (the first reply of the call, and
    the only one when Telegram accepts it), and the store is left as it
    was: no entry is created and no other user's entry changes. *)
Theorem unknown_user_told_to_restart (E : env) (u : update) (w : world) :
  user_states w !! effective_user_id u = None →
  user_states (handle_message E u w).2 = user_states w
  ∧ (∃ rest, replies (handle_message E u w).2 = replies w ++ plain restart_text :: rest)
  ∧ (reply_raises E (length (replies w)) = false →
     handle_message E u w
     = (Ok (), World (user_states w) (replies w ++ [plain restart_text]) (logged w))).
Proof.
  intros Hu. destruct w as [σ sent lg]. simpl in *.
  unfold handle_message, try_except, handle_message_try, contains. unfold_M. simpl.
  rewrite Hu. rewrite bool_decide_eq_false_2 by (by intros [? ?]). simpl.
  unfold reply_text, logger_error. simpl.
  destruct (reply_raises E (length sent)) eqn:Hfirst; simpl.
  - destruct (reply_raises E (length (sent ++ [plain restart_text]))); simpl;
      (split; [done|]; split; [|done]);
      exists [plain handler_error_text]; by rewrite <- app_assoc.
  - split; [done|]. split; [by exists []|done].
Qed.

Lemma unknown_user_told_to_restart_witness :
  let E := Env true None (λ _, None) 0 TimedOut (λ _, false) in
  let u := Update 7 None (lit "hello") in
  let w := World {[ 8%Z := UserState (Some TOPIC) ∅ ]} [] [] in
  user_states (handle_message E u w).2 = user_states w
  ∧ (∃ rest, replies (handle_message E u w).2 = replies w ++ plain restart_text :: rest)
  ∧ (reply_raises E (length (replies w)) = false →
     handle_message E u w
     = (Ok (), World (user_states w) (replies w ++ [plain restart_text]) (logged w))).
Proof.
  intros E u w.
  apply (unknown_user_told_to_restart E u w).
  reflexivity.
Defined.

(** ** The steps before the last (C8, C3) *)

(** What [get_unique_values] logs for a column (nothing unless the read
    fails, the column is missing or [sorted] raises). *)
Definition offered_log (E : env) (column_name : string) : list (string * exn) :=
  logged (get_unique_values E column_name (World ∅ [] [])).2.

Lemma get_unique_values_eq E column_name σ sent lg :
  get_unique_values E column_name (World σ sent lg)
  = (Ok (offered E column_name), World σ sent (lg ++ offered_log E column_name)).
Proof.
  unfold offered, offered_log.
  destruct (get_unique_values_run E column_name)
    as [(records & values & _ & _ & _ & _ & _ & _ & Hrun)|(e & _ & Hrun)];
    rewrite !Hrun; simpl.
  - by rewrite app_nil_r.
  - done.
Qed.

Lemma init_google_services_eq E σ sent lg :
  init_google_services E (World σ sent lg)
  = if google_ok E then (Ok (), World σ sent lg)
    else (Raise GoogleError,
          World σ sent (lg ++ [("Error initializing Google services", GoogleError)])).
Proof. unfold init_google_services, try_except. by destruct (google_ok E). Qed.

Lemma set_data_eq user_id key value σ sent lg entry :
  σ !! user_id = Some entry →
  set_data user_id key value (World σ sent lg)
  = (Ok (), World (<[user_id := UserState (state entry) (<[key := value]> (data entry))]> σ)
              sent lg).
Proof.
  intros Hu. unfold set_data, get_user, getitem, put_user. unfold_M. simpl.
  by rewrite Hu.
Qed.

Lemma set_state_eq user_id s σ sent lg entry :
  σ !! user_id = Some entry →
  set_state user_id s (World σ sent lg)
  = (Ok (), World (<[user_id := UserState s (data entry)]> σ) sent lg).
Proof.
  intros Hu. unfold set_state, get_user, getitem, put_user. unfold_M. simpl.
  by rewrite Hu.
Qed.

Lemma reply_text_eq E m σ sent lg :
  reply_text E m (World σ sent lg)
  = if reply_raises E (length sent) then (Raise TelegramError, World σ (sent ++ [m]) lg)
    else (Ok (), World σ (sent ++ [m]) lg).
Proof. done. Qed.

Lemma bind_eq {A B} (m : M A) (f : A → M B) w :
  (m ≫= f) w = match m w with
               | (Ok a, w') => f a w'
               | (Raise e, w') => (Raise e, w')
               end.
Proof. done. Qed.

Lemma choice_step_eq E user_id text key column prompt next σ sent lg entry :
  σ !! user_id = Some entry →
  choice_step E user_id text key column prompt next (World σ sent lg)
  = let stored := <[key := text]> (data entry) in
    if google_ok E then
      let sent' := sent ++ [Message prompt (one_per_row (offered E column))] in
      let lg' := lg ++ offered_log E column in
      if reply_raises E (length sent)
      then (Raise TelegramError,
            World (<[user_id := UserState (state entry) stored]> σ) sent' lg')
      else (Ok (), World (<[user_id := UserState (Some next) stored]> σ) sent' lg')
    else (Raise GoogleError,
          World (<[user_id := UserState (state entry) stored]> σ) sent
            (lg ++ [("Error initializing Google services", GoogleError)])).
Proof.
  intros Hu. unfold choice_step.
  rewrite bind_eq, (set_data_eq _ _ _ _ _ _ _ Hu).
  rewrite bind_eq, init_google_services_eq.
  destruct (google_ok E); simpl; [|done].
  rewrite bind_eq, get_unique_values_eq.
  rewrite bind_eq, reply_text_eq.
  destruct (reply_raises E (length sent)); simpl; [done|].
  erewrite set_state_eq by apply lookup_insert_eq. simpl.
  by rewrite insert_insert_eq.
Qed.

Lemma question_step_eq E user_id text key question next σ sent lg entry :
  σ !! user_id = Some entry →
  question_step E user_id text key question next (World σ sent lg)
  = let stored := <[key := text]> (data entry) in
    let sent' := sent ++ [plain question] in
    if reply_raises E (length sent)
    then (Raise TelegramError,
          World (<[user_id := UserState (state entry) stored]> σ) sent' lg)
    else (Ok (), World (<[user_id := UserState (Some next) stored]> σ) sent' lg).
Proof.
  intros Hu. unfold question_step.
  rewrite bind_eq, (set_data_eq _ _ _ _ _ _ _ Hu).
  rewrite bind_eq, reply_text_eq.
  destruct (reply_raises E (length sent)); simpl; [done|].
  erewrite set_state_eq by apply lookup_insert_eq. simpl.
  by rewrite insert_insert_eq.
Qed.

(** The two flows as the specification lists them: for a step before the
    last, the key its answer goes under, the step that follows and the
    prompt sent. *)
Definition flow (E : env) (s : step) : option (string * step * message) :=
  match s with
  | AUDIENCE =>
      Some ("audience", LANGUAGE,
            Message (lit "Great! Now select the language:") (one_per_row (offered E "language")))
  | LANGUAGE =>
      Some ("language", COUNTRY,
            Message (lit "Perfect! Choose the country:") (one_per_row (offered E "country")))
  | COUNTRY =>
      Some ("country", TOPIC,
            Message (lit "Choose the topic:") (one_per_row (offered E "topic")))
  | TOPIC =>
      Some ("topic", FORMAT,
            Message (lit "Finally, choose the format:") (one_per_row (offered E "format")))
  | FORMAT => None
  | awaiting_product =>
      Some ("product", awaiting_country, plain (lit "Which country are you targeting?"))
  | awaiting_country =>
      Some ("country", awaiting_language, plain (lit "What language should the copy be in?"))
  | awaiting_language =>
      Some ("language", awaiting_link,
            plain (lit "Please provide the App Store/Google Play link:"))
  | awaiting_link =>
      Some ("app_link", awaiting_message, plain (lit "What message do you want to convey?"))
  | awaiting_message => None
  end.

(** The column whose values a step of the catalog flow fetches for the next
    prompt; the steps of the push flow fetch nothing. *)
Definition next_column (s : step) : option string :=
  match s with
  | AUDIENCE => Some "language"
  | LANGUAGE => Some "country"
  | COUNTRY => Some "topic"
  | TOPIC => Some "format"
  | _ => None
  end.

(** The steps that call [init_google_services]. *)
Definition catalog_step (s : step) : bool := bool_decide (is_Some (next_column s)).

(** An exception leaves the [try] block of a step before the last exactly
    when Google cannot be initialised at a catalog step or Telegram refuses
    the prompt. *)
Definition escapes (E : env) (s : step) (w : world) : bool :=
  catalog_step s && negb (google_ok E) || reply_raises E (length (replies w)).

(** The [try] block at a step before the last, by what the outside world
    answers. *)
Lemma handle_message_try_step E u σ sent lg s next d key prompt :
  σ !! effective_user_id u = Some (UserState (Some s) d) →
  flow E s = Some (key, next, prompt) →
  handle_message_try E u (World σ sent lg)
  = let answers := <[key := message_text u]> d in
    let kept := <[effective_user_id u := UserState (Some s) answers]> σ in
    if catalog_step s && negb (google_ok E) then
      (Raise GoogleError,
       World kept sent (lg ++ [("Error initializing Google services", GoogleError)]))
    else
      let lg' := lg ++ from_option (offered_log E) [] (next_column s) in
      if reply_raises E (length sent)
      then (Raise TelegramError, World kept (sent ++ [prompt]) lg')
      else (Ok (),
            World (<[effective_user_id u := UserState (Some next) answers]> σ)
              (sent ++ [prompt]) lg').
Proof.
  intros Hu Hflow. rewrite (handle_message_try_known E u (World σ sent lg) _ Hu).
  destruct s; simplify_eq/=;
    rewrite ?(choice_step_eq _ _ _ _ _ _ _ _ _ _ _ Hu);
    rewrite ?(question_step_eq _ _ _ _ _ _ _ _ _ _ Hu);
    cbn [state data catalog_step next_column from_option andb];
    rewrite ?app_nil_r;
    destruct (google_ok E); try done;
    by destruct (reply_raises E (length sent)).
Qed.

(** C8. At a step before the last of either flow, when the step can reach
    what it calls (Google is initialised at a step of the catalog flow,
    Telegram accepts the prompt), the text of the message is stored as it
    came under the step's key (whatever the choices offered were), the step
    moves to the next of the flow and the next prompt is sent, without an
    exception; the answers under the other keys are as they were, and so
    are the other users' entries. *)
Theorem step_stores_and_advances (E : env) (u : update) (w : world)
    (s next : step) (d : gmap string str) (key : string) (prompt : message) :
  user_states w !! effective_user_id u = Some (UserState (Some s) d) →
  flow E s = Some (key, next, prompt) →
  (catalog_step s = true → google_ok E = true) →
  reply_raises E (length (replies w)) = false →
  (handle_message E u w).1 = Ok ()
  ∧ user_states (handle_message E u w).2
    = <[effective_user_id u := UserState (Some next) (<[key := message_text u]> d)]>
        (user_states w)
  ∧ replies (handle_message E u w).2 = replies w ++ [prompt]
  ∧ (∀ k, k ≠ key → (<[key := message_text u]> d) !! k = d !! k).
Proof.
  intros Hu Hflow Hgoogle Hreply. destruct w as [σ sent lg]. simpl in *.
  unfold handle_message, try_except.
  rewrite (handle_message_try_step _ _ _ _ _ _ _ _ _ _ Hu Hflow). cbv zeta.
  rewrite Hreply.
  assert (catalog_step s && negb (google_ok E) = false) as ->.
  { destruct (catalog_step s); [|done]. by rewrite Hgoogle. }
  simpl. split; [done|]. split; [done|]. split; [done|].
  intros k Hk. by rewrite lookup_insert_ne.
Qed.

Lemma step_stores_and_advances_witness :
  let teens := Record_ (Str (lit "Teens")) (Str (lit "English")) (Str (lit "USA"))
                 (Str (lit "Fitness")) (Str (lit "Image")) (Str (lit "Move!")) None in
  let E := Env true (Some [teens]) (λ _, None) 0 TimedOut (λ _, false) in
  let u := Update 7 None (lit "not on the keyboard") in
  let d : gmap string str := {[ "audience" := lit "Teens" ]} in
  let w := World {[ 7%Z := UserState (Some LANGUAGE) d ]} [] [] in
  let prompt := Message (lit "Perfect! Choose the country:") (Some [[Str (lit "USA")]]) in
  let E' := Env false None (λ _, None) 0 TimedOut (λ _, false) in
  let u' := Update 8 None (lit "Brazil") in
  let d' : gmap string str := {[ "product" := lit "Chess Clock" ]} in
  let w' := World {[ 8%Z := UserState (Some awaiting_country) d' ]} [] [] in
  let prompt' := plain (lit "What language should the copy be in?") in
  ((handle_message E u w).1 = Ok ()
   ∧ user_states (handle_message E u w).2
     = <[effective_user_id u := UserState (Some COUNTRY) (<["language" := message_text u]> d)]>
         (user_states w)
   ∧ replies (handle_message E u w).2 = replies w ++ [prompt]
   ∧ (∀ k, k ≠ "language" → (<["language" := message_text u]> d) !! k = d !! k))
  ∧ ((handle_message E' u' w').1 = Ok ()
     ∧ user_states (handle_message E' u' w').2
       = <[effective_user_id u' :=
             UserState (Some awaiting_language) (<["country" := message_text u']> d')]>
           (user_states w')
     ∧ replies (handle_message E' u' w').2 = replies w' ++ [prompt']
     ∧ (∀ k, k ≠ "country" → (<["country" := message_text u']> d') !! k = d' !! k)).
Proof.
  intros teens E u d w prompt E' u' d' w' prompt'. split.
  - apply (step_stores_and_advances E u w LANGUAGE COUNTRY d "language" prompt).
    + reflexivity.
    + vm_compute. reflexivity.
    + reflexivity.
    + reflexivity.
  - apply (step_stores_and_advances E' u' w' awaiting_country awaiting_language d'
             "country" prompt').
    + reflexivity.
    + reflexivity.
    + vm_compute. discriminate.
    + reflexivity.
Defined.

(** C3, as the code has it.  At a step before the last the answer is
    stored under the step's key before anything that can fail is called, so
    it is in the entry however the call ends; the answers under the other
    keys and the other users' entries are as they were.  An exception
    leaves the [try] block exactly when Google cannot be initialised at a
    step of the catalog flow or Telegram refuses the prompt: then, and only
    then, the step is the one the user was at.  When the sheet cannot be
    read the exception does not leave [get_unique_values]: it is logged
    there, the prompt goes out with no choice, and the step moves on when
    Telegram accepts the prompt. *)
Theorem failed_step_keeps_step (E : env) (u : update) (w : world)
    (s next : step) (d : gmap string str) (key : string) (prompt : message) :
  user_states w !! effective_user_id u = Some (UserState (Some s) d) →
  flow E s = Some (key, next, prompt) →
  let answers := <[key := message_text u]> d in
  user_states (handle_message E u w).2
  = <[effective_user_id u := UserState (Some (if escapes E s w then s else next)) answers]>
      (user_states w)
  ∧ (∀ k, k ≠ key → answers !! k = d !! k)
  ∧ ((∃ e, (handle_message_try E u w).1 = Raise e) ↔ escapes E s w = true)
  ∧ (∀ column,
       next_column s = Some column → google_ok E = true → sheet_records E = None →
       (get_all_records E w).1 = Raise GoogleError
       ∧ reply_markup prompt = Some []
       ∧ logged (handle_message_try E u w).2
         = logged w ++ [("Error getting unique values for " +:+ column, GoogleError)]
       ∧ (reply_raises E (length (replies w)) = false →
          handle_message E u w
          = (Ok (),
             World (<[effective_user_id u := UserState (Some next) answers]> (user_states w))
               (replies w ++ [prompt])
               (logged w ++ [("Error getting unique values for " +:+ column, GoogleError)])))).
Proof.
  intros Hu Hflow answers. destruct w as [σ sent lg]. simpl in *.
  unfold handle_message at 1. rewrite handle_message_except.
  unfold handle_message, try_except.
  rewrite (handle_message_try_step _ _ _ _ _ _ _ _ _ _ Hu Hflow). cbv zeta.
  unfold escapes. simpl.
  split; [|split; [|split]].
  - destruct (catalog_step s && negb (google_ok E)); [done|].
    by destruct (reply_raises E (length sent)).
  - intros k Hk. unfold answers. by rewrite lookup_insert_ne.
  - destruct (catalog_step s && negb (google_ok E)); simpl.
    { split; [done|]. by eexists. }
    destruct (reply_raises E (length sent)); simpl.
    + split; [done|]. by eexists.
    + split; [by intros [e [=]]|done].
  - intros column Hcolumn Hgoogle Hsheet. rewrite Hgoogle, andb_false_r.
    unfold get_all_records. rewrite Hsheet. split; [done|].
    assert (offered E column = [] ∧ offered_log E column
            = [("Error getting unique values for " +:+ column, GoogleError)])
      as [Hoffered Hlog].
    { unfold offered, offered_log, get_unique_values, try_except, get_all_records.
      rewrite Hsheet. done. }
    split; [|split].
    + destruct s; simplify_eq/=; by rewrite Hoffered.
    + rewrite Hcolumn. simpl. rewrite Hlog.
      by destruct (reply_raises E (length sent)).
    + intros ->. rewrite Hcolumn. simpl. by rewrite Hlog.
Qed.

Lemma failed_step_keeps_step_witness :
  let d : gmap string str := {[ "audience" := lit "Teens" ]} in
  let u := Update 7 None (lit "English") in
  let w := World {[ 7%Z := UserState (Some LANGUAGE) d; 8%Z := UserState (Some TOPIC) ∅ ]}
             [] [] in
  let answers := <["language" := message_text u]> d in
  let down := Env false None (λ _, None) 0 TimedOut (λ _, false) in
  let unread := Env true None (λ _, None) 0 TimedOut (λ _, false) in
  let prompt := Message (lit "Perfect! Choose the country:") (Some []) in
  (user_states (handle_message down u w).2
   = <[effective_user_id u :=
         UserState (Some (if escapes down LANGUAGE w then LANGUAGE else COUNTRY)) answers]>
       (user_states w)
   ∧ (∀ k, k ≠ "language" → answers !! k = d !! k)
   ∧ ((∃ e, (handle_message_try down u w).1 = Raise e) ↔ escapes down LANGUAGE w = true)
   ∧ (∀ column,
        next_column LANGUAGE = Some column → google_ok down = true →
        sheet_records down = None →
        (get_all_records down w).1 = Raise GoogleError
        ∧ reply_markup prompt = Some []
        ∧ logged (handle_message_try down u w).2
          = logged w ++ [("Error getting unique values for " +:+ column, GoogleError)]
        ∧ (reply_raises down (length (replies w)) = false →
           handle_message down u w
           = (Ok (),
              World (<[effective_user_id u := UserState (Some COUNTRY) answers]> (user_states w))
                (replies w ++ [prompt])
                (logged w
                 ++ [("Error getting unique values for " +:+ column, GoogleError)])))))
  ∧ (user_states (handle_message unread u w).2
     = <[effective_user_id u :=
           UserState (Some (if escapes unread LANGUAGE w then LANGUAGE else COUNTRY)) answers]>
         (user_states w)
     ∧ (∀ k, k ≠ "language" → answers !! k = d !! k)
     ∧ ((∃ e, (handle_message_try unread u w).1 = Raise e)
        ↔ escapes unread LANGUAGE w = true)
     ∧ (∀ column,
          next_column LANGUAGE = Some column → google_ok unread = true →
          sheet_records unread = None →
          (get_all_records unread w).1 = Raise GoogleError
          ∧ reply_markup prompt = Some []
          ∧ logged (handle_message_try unread u w).2
            = logged w ++ [("Error getting unique values for " +:+ column, GoogleError)]
          ∧ (reply_raises unread (length (replies w)) = false →
             handle_message unread u w
             = (Ok (),
                World (<[effective_user_id u := UserState (Some COUNTRY) answers]> (user_states w))
                  (replies w ++ [prompt])
                  (logged w
                   ++ [("Error getting unique values for " +:+ column, GoogleError)]))))).
Proof.
  intros d u w answers down unread prompt. split.
  - apply (failed_step_keeps_step down u w LANGUAGE COUNTRY d "language" prompt).
    + reflexivity.
    + vm_compute. reflexivity.
  - apply (failed_step_keeps_step unread u w LANGUAGE COUNTRY d "language" prompt).
    + reflexivity.
    + vm_compute. reflexivity.
Defined.

(** C3, as the claim states it, fails in two ways.  A user at the LANGUAGE
    step, with the audience answered, sends "English".  When Google cannot
    be initialised the exception reaches the handler of [handle_message]:
    the step is kept, but the entry now holds the language it did not hold
    before.  When Google is initialised and the sheet cannot be read, the
    exception is caught inside [get_unique_values]: the user is sent a
    prompt with no choice and the step moves on to COUNTRY. *)
Lemma failed_step_changes_entry :
  let d : gmap string str := {[ "audience" := lit "Teens" ]} in
  let u := Update 7 None (lit "English") in
  let w := World {[ 7%Z := UserState (Some LANGUAGE) d ]} [] [] in
  let down := Env false None (λ _, None) 0 TimedOut (λ _, false) in
  let unread := Env true None (λ _, None) 0 TimedOut (λ _, false) in
  ((handle_message_try down u w).1 = Raise GoogleError
   ∧ user_states (handle_message down u w).2 !! 7%Z
     = Some (UserState (Some LANGUAGE) (<["language" := lit "English"]> d))
   ∧ user_states (handle_message down u w).2 !! 7%Z ≠ user_states w !! 7%Z)
  ∧ ((get_all_records unread w).1 = Raise GoogleError
     ∧ handle_message unread u w
       = (Ok (),
          World {[ 7%Z := UserState (Some COUNTRY) (<["language" := lit "English"]> d) ]}
            [Message (lit "Perfect! Choose the country:") (Some [])]
            [("Error getting unique values for country", GoogleError)])
     ∧ user_states (handle_message unread u w).2 !! 7%Z ≠ user_states w !! 7%Z).
Proof.
  split; [split; [|split]|split; [|split]].
  - vm_compute. reflexivity.
  - vm_compute. reflexivity.
  - vm_compute. intros [=].
  - vm_compute. reflexivity.
  - vm_compute. reflexivity.
  - vm_compute. intros [=].
Qed.

(** ** The last step of the catalog flow (C1, C5) *)

(** The record has the five answers in its five facet fields: each of the
    five cells is a text and equals the answer. *)
Definition fits (a l c t f : str) (r : record) : Prop :=
  audience r = Str a ∧ language r = Str l ∧ country r = Str c
  ∧ topic r = Str t ∧ format r = Str f.

Global Instance fits_dec a l c t f r : Decision (fits a l c t f r).
Proof. unfold fits. apply _. Defined.

Section collected.

Context (user_data : gmap string str) (a l c t f : str).
Hypothesis has_audience : user_data !! "audience" = Some a.
Hypothesis has_language : user_data !! "language" = Some l.
Hypothesis has_country : user_data !! "country" = Some c.
Hypothesis has_topic : user_data !! "topic" = Some t.
Hypothesis has_format : user_data !! "format" = Some f.

Lemma matches_eq r w : matches user_data r w = (Ok (bool_decide (fits a l c t f r)), w).
Proof.
  unfold matches, getitem, fits. unfold_M.
  rewrite has_audience. simpl. case_bool_decide; simpl;
    [|by rewrite bool_decide_eq_false_2 by (by intros (?&?&?&?&?))].
  rewrite has_language. simpl. case_bool_decide; simpl;
    [|by rewrite bool_decide_eq_false_2 by (by intros (?&?&?&?&?))].
  rewrite has_country. simpl. case_bool_decide; simpl;
    [|by rewrite bool_decide_eq_false_2 by (by intros (?&?&?&?&?))].
  rewrite has_topic. simpl. case_bool_decide; simpl;
    [|by rewrite bool_decide_eq_false_2 by (by intros (?&?&?&?&?))].
  rewrite has_format. simpl. f_equal. f_equal.
  apply bool_decide_ext. split; [done|by intros (?&?&?&?&?)].
Qed.

Lemma matching_eq all_records w :
  matching user_data all_records w = (Ok (filter (fits a l c t f) all_records), w).
Proof.
  induction all_records as [|r rest IH]; simpl; [done|].
  rewrite bind_eq, matches_eq. rewrite bind_eq, IH. unfold_M.
  rewrite filter_cons. by case_bool_decide; case_decide.
Qed.

End collected.

Lemma get_user_eq user_id σ sent lg entry :
  σ !! user_id = Some entry →
  get_user user_id (World σ sent lg) = (Ok entry, World σ sent lg).
Proof. intros Hu. unfold get_user, getitem. simpl. by rewrite Hu. Qed.

Lemma get_all_records_eq E records w :
  sheet_records E = Some records → get_all_records E w = (Ok records, w).
Proof. intros Hrecords. unfold get_all_records. by rewrite Hrecords. Qed.

Lemma format_try_eq E user_id answer σ sent lg st d a l c t records :
  σ !! user_id = Some (UserState st d) →
  d !! "audience" = Some a → d !! "language" = Some l →
  d !! "country" = Some c → d !! "topic" = Some t →
  google_ok E = true → sheet_records E = Some records →
  format_try E user_id answer (World σ sent lg)
  = let w' := World (<[user_id := UserState st (<["format" := answer]> d)]> σ) sent lg in
    match filter (fits a l c t answer) records with
    | r :: rs =>
        (random_record ← random_choice E (r :: rs);
         response ← with_image E random_record
                      (lit "Here's your content:" ++ nl ++ nl
                       ++ to_str (text random_record));
         reply_in_parts E response) w'
    | [] => reply_text E (plain no_content_text) w'
    end.
Proof.
  intros Hu Ha Hl Hc Ht Hgoogle Hrecords. unfold format_try.
  rewrite bind_eq, init_google_services_eq, Hgoogle.
  rewrite bind_eq, (set_data_eq _ _ _ _ _ _ _ Hu).
  rewrite bind_eq, (get_user_eq _ _ _ _ _ (lookup_insert_eq _ _ _)).
  cbv beta iota zeta.
  rewrite bind_eq, (get_all_records_eq _ _ _ Hrecords).
  rewrite bind_eq. cbn [data].
  rewrite (matching_eq _ a l c t answer) by (by simplify_map_eq).
  by destruct (filter _ records).
Qed.

Lemma filter_fits_nil a l c t f (records : list record) :
  (∀ r, r ∈ records → ¬ fits a l c t f r) → filter (fits a l c t f) records = [].
Proof.
  intros Hnone. induction records as [|r rest IH]; [done|].
  rewrite filter_cons, decide_False by (apply Hnone; by left).
  apply IH. intros r' Hr'. apply Hnone. by right.
Qed.

(** C5. When the five answers are collected and no record of the sheet has
    them all, the FORMAT step calls [reply_text] with the "no content found"
    text (its first reply, and the only one when Telegram accepts it) and
    the user's entry is deleted. *)
Theorem no_match_reports_and_deletes (E : env) (u : update) (w : world)
    (d : gmap string str) (a l c t : str) (records : list record) :
  user_states w !! effective_user_id u = Some (UserState (Some FORMAT) d) →
  d !! "audience" = Some a → d !! "language" = Some l →
  d !! "country" = Some c → d !! "topic" = Some t →
  google_ok E = true → sheet_records E = Some records →
  (∀ r, r ∈ records → ¬ fits a l c t (message_text u) r) →
  user_states (handle_message E u w).2 = delete (effective_user_id u) (user_states w)
  ∧ (∃ rest, replies (handle_message E u w).2 = replies w ++ plain no_content_text :: rest)
  ∧ (reply_raises E (length (replies w)) = false →
     replies (handle_message E u w).2 = replies w ++ [plain no_content_text]).
Proof.
  intros Hu Ha Hl Hc Ht Hgoogle Hrecords Hnone. split.
  { unfold handle_message. rewrite handle_message_except.
    rewrite (handle_message_try_known _ _ _ _ Hu). simpl.
    apply format_step_deletes. by eexists. }
  unfold handle_message, try_except.
  rewrite (handle_message_try_known _ _ _ _ Hu).
  destruct w as [σ sent lg]. simpl in *.
  unfold format_step, try_finally, try_except.
  rewrite (format_try_eq _ _ _ _ _ _ _ _ _ _ _ _ _ Hu Ha Hl Hc Ht Hgoogle Hrecords).
  rewrite (filter_fits_nil _ _ _ _ _ _ Hnone). cbv zeta.
  rewrite reply_text_eq. unfold del_user.
  destruct (reply_raises E (length sent)) eqn:Hfirst; simpl.
  - rewrite bind_eq. unfold logger_error. simpl. rewrite reply_text_eq. simpl.
    destruct (reply_raises E (length (sent ++ [plain no_content_text]))); simpl;
      rewrite lookup_insert_eq; simpl.
    + rewrite bind_eq. unfold logger_error. simpl. rewrite reply_text_eq. simpl.
      split; [|done].
      exists [plain content_error_text; plain handler_error_text].
      match goal with |- context [reply_raises E ?n] => destruct (reply_raises E n) end;
        simpl; by rewrite <- !app_assoc.
    + split; [|done]. exists [plain content_error_text]. by rewrite <- !app_assoc.
  - rewrite lookup_insert_eq. simpl. split; [by exists []|done].
Qed.

Lemma no_match_reports_and_deletes_witness :
  let teens := Record_ (Str (lit "Teens")) (Str (lit "English")) (Str (lit "USA"))
                       (Str (lit "Fitness")) (Str (lit "Image")) (Str (lit "Move!"))
                       None in
  let E := Env true (Some [teens]) (λ _, None) 0 TimedOut (λ _, false) in
  let u := Update 7 None (lit "Video") in
  let d : gmap string str :=
    {[ "audience" := lit "Teens"; "language" := lit "English";
       "country" := lit "USA"; "topic" := lit "Fitness" ]} in
  let w := World {[ 7%Z := UserState (Some FORMAT) d ]} [] [] in
  user_states (handle_message E u w).2 = delete (effective_user_id u) (user_states w)
  ∧ (∃ rest, replies (handle_message E u w).2 = replies w ++ plain no_content_text :: rest)
  ∧ (reply_raises E (length (replies w)) = false →
     replies (handle_message E u w).2 = replies w ++ [plain no_content_text]).
Proof.
  intros teens E u d w.
  apply (no_match_reports_and_deletes E u w d (lit "Teens") (lit "English")
           (lit "USA") (lit "Fitness") [teens]); try reflexivity.
  intros r Hr (_ & _ & _ & _ & Hf).
  apply list_elem_of_singleton in Hr. subst r. vm_compute in Hf. discriminate.
Defined.

Lemma random_choice_eq {A} E (seq : list A) :
  seq ≠ [] → ∃ x, x ∈ seq ∧ ∀ w, random_choice E seq w = (Ok x, w).
Proof.
  intros Hseq. unfold random_choice.
  destruct (lookup_lt_is_Some_2 seq (random_index E `mod` length seq)) as [x Hx].
  { apply Nat.mod_upper_bound. by destruct seq. }
  exists x. split; [by eapply list_elem_of_lookup_2|]. intros w. by rewrite Hx.
Qed.

Lemma with_image_eq E r response σ sent lg :
  ∃ suffix lg',
    with_image E r response (World σ sent lg)
    = (Ok (response ++ suffix), World σ sent (lg ++ lg'))
    ∧ (suffix = [] ∨ ∃ link, suffix = nl ++ nl ++ lit "Image: " ++ link).
Proof.
  unfold with_image. destruct (image_id r) as [id|].
  2:{ exists [], []. rewrite !app_nil_r. split; [done|by left]. }
  destruct (truthy id).
  - unfold try_except, files_get_link. rewrite bind_eq.
    destruct (drive_link E id) as [link|].
    + exists (nl ++ nl ++ lit "Image: " ++ link), []. rewrite app_nil_r.
      split; [done|right; by exists link].
    + exists [], [("Error getting image", GoogleError)]. rewrite app_nil_r.
      split; [done|by left].
  - exists [], []. rewrite !app_nil_r. split; [done|by left].
Qed.

Lemma reply_in_parts_eq E response σ sent lg :
  (∀ n, reply_raises E n = false) →
  ∃ chunks,
    reply_in_parts E response (World σ sent lg)
    = (Ok (), World σ (sent ++ (plain <$> chunks)) lg)
    ∧ concat chunks = response.
Proof.
  intros Hr. unfold reply_in_parts. destruct (4096 <? length response).
  - exists (parts 4096 response). split; [by apply for_each_reply|].
    apply concat_parts. lia.
  - exists [response]. rewrite reply_text_eq, Hr. split; [done|]. simpl. apply app_nil_r.
Qed.

Lemma body_plain (chunks : list str) : body <$> (plain <$> chunks) = chunks.
Proof.
  induction chunks as [|chunk chunks IH]; [done|].
  rewrite !fmap_cons. by f_equal.
Qed.

(** C1. When the five answers are collected and the sheet holds a record
    with all five, the FORMAT step picks one of the records that have them:
    the replies it sends, put together, are "Here's your content:", an empty
    line and the text of that record (followed by the image link when the
    record has one that resolves).  Telegram accepting every reply. *)
Theorem matching_record_is_sent (E : env) (u : update) (w : world)
    (d : gmap string str) (a l c t : str) (records : list record) (r0 : record) :
  user_states w !! effective_user_id u = Some (UserState (Some FORMAT) d) →
  d !! "audience" = Some a → d !! "language" = Some l →
  d !! "country" = Some c → d !! "topic" = Some t →
  google_ok E = true → sheet_records E = Some records →
  r0 ∈ records → fits a l c t (message_text u) r0 →
  (∀ n, reply_raises E n = false) →
  ∃ r suffix sent,
    r ∈ records
    ∧ fits a l c t (message_text u) r
    ∧ replies (handle_message E u w).2 = replies w ++ sent
    ∧ concat (body <$> sent)
      = lit "Here's your content:" ++ nl ++ nl ++ to_str (text r) ++ suffix
    ∧ (suffix = [] ∨ ∃ link, suffix = nl ++ nl ++ lit "Image: " ++ link)
    ∧ user_states (handle_message E u w).2 = delete (effective_user_id u) (user_states w).
Proof.
  intros Hu Ha Hl Hc Ht Hgoogle Hrecords Hr0 Hfits Hreply.
  assert (user_states (handle_message E u w).2
          = delete (effective_user_id u) (user_states w)) as Hdel.
  { unfold handle_message. rewrite handle_message_except.
    rewrite (handle_message_try_known _ _ _ _ Hu). simpl.
    apply format_step_deletes. by eexists. }
  revert Hdel. unfold handle_message, try_except.
  rewrite (handle_message_try_known _ _ _ _ Hu).
  destruct w as [σ sent lg]. cbn [state user_states replies].
  unfold format_step, try_finally, try_except.
  rewrite (format_try_eq _ _ _ _ _ _ _ _ _ _ _ _ _ Hu Ha Hl Hc Ht Hgoogle Hrecords).
  destruct (filter (fits a l c t (message_text u)) records) as [|r rs] eqn:Hfilter.
  { assert (r0 ∈ filter (fits a l c t (message_text u)) records) as Hin
      by (by apply list_elem_of_filter).
    rewrite Hfilter in Hin. by apply elem_of_nil in Hin. }
  destruct (random_choice_eq E (r :: rs)) as (x & Hx & Hchoice); [done|].
  rewrite <- Hfilter in Hx. apply list_elem_of_filter in Hx as [Hxfits Hxin].
  cbv zeta. rewrite bind_eq, Hchoice. cbn [user_states replies logged]. rewrite bind_eq.
  destruct (with_image_eq E x (lit "Here's your content:" ++ nl ++ nl ++ to_str (text x))
              (<[effective_user_id u :=
                   UserState (Some FORMAT) (<["format" := message_text u]> d)]> σ) sent lg)
    as (suffix & lg' & -> & Hsuffix).
  destruct (reply_in_parts_eq E
              ((lit "Here's your content:" ++ nl ++ nl ++ to_str (text x)) ++ suffix)
              (<[effective_user_id u :=
                   UserState (Some FORMAT) (<["format" := message_text u]> d)]> σ)
              sent (lg ++ lg') Hreply)
    as (chunks & -> & Hconcat).
  unfold del_user. cbn [user_states]. rewrite lookup_insert_eq. cbn.
  intros Hdel. exists x, suffix, (plain <$> chunks).
  split; [done|]. split; [done|]. split; [done|]. split; [|by split].
  rewrite body_plain, Hconcat. by rewrite <- !app_assoc.
Qed.

Lemma matching_record_is_sent_witness :
  let teens := Record_ (Str (lit "Teens")) (Str (lit "English")) (Str (lit "USA"))
                       (Str (lit "Fitness")) (Str (lit "Image")) (Str (lit "Move!"))
                       (Some (Str (lit "file-1"))) in
  let adults := Record_ (Str (lit "Adults")) (Str (lit "English")) (Str (lit "USA"))
                        (Str (lit "Fitness")) (Str (lit "Image")) (Str (lit "Stretch!"))
                        None in
  let E := Env true (Some [adults; teens]) (λ _, Some (lit "https://drive/1")) 5
             TimedOut (λ _, false) in
  let u := Update 7 None (lit "Image") in
  let d : gmap string str :=
    {[ "audience" := lit "Teens"; "language" := lit "English";
       "country" := lit "USA"; "topic" := lit "Fitness" ]} in
  let w := World {[ 7%Z := UserState (Some FORMAT) d ]} [] [] in
  ∃ r suffix sent,
    r ∈ [adults; teens]
    ∧ fits (lit "Teens") (lit "English") (lit "USA") (lit "Fitness") (message_text u) r
    ∧ replies (handle_message E u w).2 = replies w ++ sent
    ∧ concat (body <$> sent)
      = lit "Here's your content:" ++ nl ++ nl ++ to_str (text r) ++ suffix
    ∧ (suffix = [] ∨ ∃ link, suffix = nl ++ nl ++ lit "Image: " ++ link)
    ∧ user_states (handle_message E u w).2 = delete (effective_user_id u) (user_states w).
Proof.
  intros teens adults E u d w.
  apply (matching_record_is_sent E u w d (lit "Teens") (lit "English")
           (lit "USA") (lit "Fitness") [adults; teens] teens); try reflexivity.
  - right. left.
  - repeat split.
Defined.

Example one_match_text_in_reply :
  let teens := Record_ (Str (lit "Teens")) (Str (lit "English")) (Str (lit "USA"))
                       (Str (lit "Fitness")) (Str (lit "Image")) (Str (lit "Move!"))
                       None in
  let adults := Record_ (Str (lit "Adults")) (Str (lit "English")) (Str (lit "USA"))
                        (Str (lit "Fitness")) (Str (lit "Image")) (Str (lit "Stretch!"))
                        None in
  let E := Env true (Some [adults; teens]) (λ _, None) 5 TimedOut (λ _, false) in
  let says m E w := (handle_message E (Update 7 None (lit m)) w).2 in
  let w := (start_command E (Update 7 None (lit "/start")) (World ∅ [] [])).2 in
  let w := says "Generate Content" E w in
  let w := says "Teens" E w in
  let w := says "English" E w in
  let w := says "USA" E w in
  let w := says "Fitness" E w in
  let before := length (replies w) in
  let w := says "Image" E w in
  drop before (replies w) = [plain (lit "Here's your content:" ++ nl ++ nl ++ lit "Move!")]
  ∧ user_states w = ∅.
Proof. vm_compute. split; reflexivity. Qed.

(** ** The last step of the push flow (C7) *)

(** The generation request did not end with a completion. *)
Definition failed (o : http_outcome) : Prop :=
  match o with
  | Completion _ => False
  | _ => True
  end.

Lemma generate_push_notifications_failed E username product country language app_link
    message σ sent lg :
  failed (deepseek E) →
  ∃ line,
    generate_push_notifications E username product country language app_link message
      (World σ sent lg)
    = (Ok None, World σ sent (lg ++ [line])).
Proof.
  unfold generate_push_notifications. destruct (deepseek E); try done; intros _;
    eexists; rewrite bind_eq; unfold logger_error; simpl; done.
Qed.

Lemma getitem_eq {V} (dict : gmap string V) key v w :
  dict !! key = Some v → getitem dict key w = (Ok v, w).
Proof. intros Hk. unfold getitem. by rewrite Hk. Qed.

(** C7. When the generation request fails (connection, timeout, status,
    malformed answer), [generate_push_notifications] returns [None]; the
    awaiting_message step, which has announced the generation, then calls
    [reply_text] with the "couldn't generate" text (its last reply when
    Telegram accepts it) and the user's entry is deleted. *)
Theorem failed_generation_reports_and_deletes (E : env) (u : update) (w : world)
    (d : gmap string str) (product country language app_link : str) :
  user_states w !! effective_user_id u = Some (UserState (Some awaiting_message) d) →
  d !! "product" = Some product → d !! "country" = Some country →
  d !! "language" = Some language → d !! "app_link" = Some app_link →
  reply_raises E (length (replies w)) = false →
  failed (deepseek E) →
  (∀ username message w',
      (generate_push_notifications E username product country language app_link
         message w').1 = Ok None)
  ∧ user_states (handle_message E u w).2 = delete (effective_user_id u) (user_states w)
  ∧ ∃ rest,
      replies (handle_message E u w).2
      = replies w ++ [plain generating_text; plain could_not_generate_text] ++ rest
      ∧ (reply_raises E (S (length (replies w))) = false → rest = []).
Proof.
  intros Hu Hp Hc Hl Ha Hfirst Hfailed. split; [|split].
  { intros username message [σ sent lg].
    destruct (generate_push_notifications_failed E username product country language
                app_link message σ sent lg Hfailed) as [line ->]. done. }
  { unfold handle_message. rewrite handle_message_except.
    rewrite (handle_message_try_known _ _ _ _ Hu). simpl.
    apply message_step_deletes. by eexists. }
  unfold handle_message, try_except.
  rewrite (handle_message_try_known _ _ _ _ Hu).
  destruct w as [σ sent lg]. cbn [state user_states replies logged] in *.
  unfold message_step, try_finally, try_except, message_try. cbv zeta.
  rewrite bind_eq, (set_data_eq _ _ _ _ _ _ _ Hu).
  rewrite bind_eq, reply_text_eq, Hfirst.
  rewrite bind_eq, (get_user_eq _ _ _ _ _ (lookup_insert_eq _ _ _)).
  cbn [data state].
  rewrite bind_eq, (getitem_eq _ _ product) by (by simplify_map_eq).
  rewrite bind_eq, (getitem_eq _ _ country) by (by simplify_map_eq).
  rewrite bind_eq, (getitem_eq _ _ language) by (by simplify_map_eq).
  rewrite bind_eq, (getitem_eq _ _ app_link) by (by simplify_map_eq).
  rewrite bind_eq, (getitem_eq _ _ (message_text u)) by (by simplify_map_eq).
  rewrite bind_eq.
  match goal with |- context [generate_push_notifications E ?a ?b ?c ?d ?e ?f (World ?s ?t ?g)] =>
    destruct (generate_push_notifications_failed E a b c d e f s t g Hfailed) as [line ->]
  end.
  rewrite reply_text_eq. unfold del_user. rewrite length_app. simpl.
  replace (length sent + 1) with (S (length sent)) by lia.
  destruct (reply_raises E (S (length sent))) eqn:Hsecond; simpl.
  - rewrite bind_eq. unfold logger_error. simpl. rewrite reply_text_eq. simpl.
    match goal with |- context [reply_raises E ?n] => destruct (reply_raises E n) end;
      simpl; rewrite lookup_insert_eq; simpl.
    + rewrite bind_eq. unfold logger_error. simpl. rewrite reply_text_eq. simpl.
      exists [plain generation_error_text; plain handler_error_text]. split; [|done].
      match goal with |- context [reply_raises E ?n] => destruct (reply_raises E n) end;
        simpl; by rewrite <- !app_assoc.
    + exists [plain generation_error_text]. split; [|done]. by rewrite <- !app_assoc.
  - rewrite lookup_insert_eq. simpl. exists []. split; [|done]. by rewrite <- !app_assoc.
Qed.

Lemma failed_generation_reports_and_deletes_witness :
  let E := Env true None (λ _, None) 0 ConnectionFailed (λ _, false) in
  let u := Update 7 (Some (lit "ann")) (lit "Half price today") in
  let d : gmap string str :=
    {[ "product" := lit "Shop"; "country" := lit "USA";
       "language" := lit "English"; "app_link" := lit "https://app" ]} in
  let w := World {[ 7%Z := UserState (Some awaiting_message) d ]} [] [] in
  (∀ username message w',
      (generate_push_notifications E username (lit "Shop") (lit "USA") (lit "English")
         (lit "https://app") message w').1 = Ok None)
  ∧ user_states (handle_message E u w).2 = delete (effective_user_id u) (user_states w)
  ∧ ∃ rest,
      replies (handle_message E u w).2
      = replies w ++ [plain generating_text; plain could_not_generate_text] ++ rest
      ∧ (reply_raises E (S (length (replies w))) = false → rest = []).
Proof.
  intros E u d w.
  apply (failed_generation_reports_and_deletes E u w d); first [reflexivity | exact I].
Defined.

(** * Further properties of the handlers *)

(** ** [help_command] *)

Definition help_text : str :=
  nl ++ lit "Available commands:" ++ nl
  ++ lit "/start - Start the bot" ++ nl
  ++ lit "/help - Show this help message" ++ nl
  ++ nl
  ++ lit "Options:" ++ nl
  ++ lit "1. Generate Content - Create content based on templates" ++ nl
  ++ lit "2. Use push-generator - Generate push notifications" ++ nl
  ++ lit "    ".

(** [help_command]: it has no [try] of its own. *)
Definition help_command (E : env) (u : update) : M unit :=
  reply_text E (plain help_text).

(** ** What a message does to the store *)

(** How [handle_message] may change the entry of the sender at a step that
    is not a terminal one: the answer goes under the key of the step, and
    the step moves on or stays; from the menu, one of the two flows is
    entered. *)
Inductive entry_step (E : env) (text : str) : user_state → user_state → Prop :=
  | entry_advance s d key next prompt :
      flow E s = Some (key, next, prompt) →
      entry_step E text (UserState (Some s) d) (UserState (Some next) (<[key := text]> d))
  | entry_stay s d key next prompt :
      flow E s = Some (key, next, prompt) →
      entry_step E text (UserState (Some s) d) (UserState (Some s) (<[key := text]> d))
  | entry_content d :
      text = lit "Generate Content" →
      entry_step E text (UserState None d) (UserState (Some AUDIENCE) d)
  | entry_push d :
      text = lit "Use push-generator" →
      entry_step E text (UserState None d) (UserState (Some awaiting_product) d).

Lemma handle_message_try_unknown E u w :
  user_states w !! effective_user_id u = None →
  handle_message_try E u w = reply_text E (plain restart_text) w.
Proof.
  intros Hu. unfold handle_message_try, contains. rewrite bind_eq. cbn [fst snd].
  rewrite Hu. by rewrite bool_decide_eq_false_2 by (by intros [? ?]).
Qed.

Lemma handle_message_store_cases E u w :
  user_states (handle_message E u w).2 = user_states w
  ∨ (∃ entry,
        user_states w !! effective_user_id u = Some entry
        ∧ (state entry = Some FORMAT ∨ state entry = Some awaiting_message)
        ∧ user_states (handle_message E u w).2
          = delete (effective_user_id u) (user_states w))
  ∨ (∃ entry entry',
        user_states w !! effective_user_id u = Some entry
        ∧ entry_step E (message_text u) entry entry'
        ∧ user_states (handle_message E u w).2
          = <[effective_user_id u := entry']> (user_states w)).
Proof.
  unfold handle_message. rewrite handle_message_except.
  destruct (user_states w !! effective_user_id u) as [[st d]|] eqn:Hu.
  2:{ left. rewrite (handle_message_try_unknown _ _ _ Hu).
      destruct w as [σ sent lg]. rewrite reply_text_eq.
      by destruct (reply_raises E (length sent)). }
  rewrite (handle_message_try_known _ _ _ _ Hu). cbn [state].
  destruct st as [s|].
  - destruct (flow E s) as [[[key next] prompt]|] eqn:Hflow.
    + right. right. destruct w as [σ sent lg]. cbn [user_states] in *.
      exists (UserState (Some s) d).
      destruct s; simplify_eq/=;
        rewrite ?(choice_step_eq _ _ _ _ _ _ _ _ _ _ _ Hu);
        rewrite ?(question_step_eq _ _ _ _ _ _ _ _ _ _ Hu); cbn [state data];
        destruct (google_ok E); destruct (reply_raises E (length sent)); cbn [snd user_states];
        eexists; (split; [done|]); (split; [|done]);
        first [ by eapply entry_advance | by eapply entry_stay ].
    + right. left. exists (UserState (Some s) d). split; [done|].
      destruct s; simplify_eq/=.
      * split; [by left|]. apply format_step_deletes. by eexists.
      * split; [by right|]. apply message_step_deletes. by eexists.
  - destruct w as [σ sent lg]. cbn [user_states] in *.
    repeat case_decide.
    + rewrite bind_eq, init_google_services_eq.
      destruct (google_ok E); [|by left].
      rewrite bind_eq, get_unique_values_eq.
      rewrite bind_eq, reply_text_eq.
      destruct (reply_raises E (length sent)); [by left|].
      rewrite (set_state_eq _ _ _ _ _ _ Hu). right. right.
      eexists _, _. split; [done|]. split; [|done]. by apply entry_content.
    + rewrite bind_eq, reply_text_eq.
      destruct (reply_raises E (length sent)); [by left|].
      rewrite (set_state_eq _ _ _ _ _ _ Hu). right. right.
      eexists _, _. split; [done|]. split; [|done]. by apply entry_push.
    + by left.
Qed.

(** X1. The effect of a message on the store.  After [handle_message] the
    store is the one before, or the one before without the sender's entry
    (the sender was at a terminal step), or the one before with the sender's
    entry moved by one [entry_step]. *)
Theorem handle_message_transition (E : env) (u : update) (w : world) :
  user_states (handle_message E u w).2 = user_states w
  ∨ (∃ entry,
        user_states w !! effective_user_id u = Some entry
        ∧ (state entry = Some FORMAT ∨ state entry = Some awaiting_message)
        ∧ user_states (handle_message E u w).2
          = delete (effective_user_id u) (user_states w))
  ∨ (∃ entry entry',
        user_states w !! effective_user_id u = Some entry
        ∧ entry_step E (message_text u) entry entry'
        ∧ user_states (handle_message E u w).2
          = <[effective_user_id u := entry']> (user_states w)).
Proof. apply handle_message_store_cases. Qed.

(** X2. A message touches the entry of its sender only.  Whatever the
    outside world answers, the entry of every other user is the same after
    [handle_message], and no entry appears that was not there. *)
Theorem handle_message_touches_sender_only (E : env) (u : update) (w : world) (other : Z) :
  (other ≠ effective_user_id u →
   user_states (handle_message E u w).2 !! other = user_states w !! other)
  ∧ (is_Some (user_states (handle_message E u w).2 !! other) →
     is_Some (user_states w !! other)).
Proof.
  destruct (handle_message_store_cases E u w)
    as [-> | [(entry & Hu & _ & ->) | (entry & entry' & Hu & _ & ->)]].
  - done.
  - split.
    + intros Hne. by rewrite lookup_delete_ne.
    + intros [x Hx%lookup_delete_Some]. destruct Hx as [_ Hx]. by eexists.
  - split.
    + intros Hne. by rewrite lookup_insert_ne.
    + destruct (decide (other = effective_user_id u)) as [->|Hne].
      * intros _. by eexists.
      * by rewrite lookup_insert_ne.
Qed.

(** ** The answers a step relies on *)

(** The keys the later steps read, by step: at each step the answers of the
    steps before it in its flow. *)
Definition required (st : option step) : list string :=
  match st with
  | None | Some AUDIENCE | Some awaiting_product => []
  | Some LANGUAGE => ["audience"]
  | Some COUNTRY => ["audience"; "language"]
  | Some TOPIC => ["audience"; "language"; "country"]
  | Some FORMAT => ["audience"; "language"; "country"; "topic"]
  | Some awaiting_country => ["product"]
  | Some awaiting_language => ["product"; "country"]
  | Some awaiting_link => ["product"; "country"; "language"]
  | Some awaiting_message => ["product"; "country"; "language"; "app_link"]
  end.

Definition entry_ok (entry : user_state) : Prop :=
  Forall (λ key, is_Some (data entry !! key)) (required (state entry)).

Definition store_ok (w : world) : Prop :=
  ∀ user_id entry, user_states w !! user_id = Some entry → entry_ok entry.

Lemma is_Some_insert_keep (d : gmap string str) key value key' :
  is_Some (d !! key') → is_Some (<[key := value]> d !! key').
Proof. intros Hk. rewrite lookup_insert. case_decide; [by eexists|done]. Qed.

Lemma entry_step_ok E text entry entry' :
  entry_step E text entry entry' → entry_ok entry → entry_ok entry'.
Proof.
  unfold entry_ok.
  destruct 1 as [s d key next prompt Hflow|s d key next prompt Hflow|d _|d _];
    simpl; intros Hok; try by constructor.
  - destruct s; simplify_eq/=;
      repeat match goal with H : Forall _ (_ :: _) |- _ => apply Forall_cons in H as [? H] end;
      repeat (apply Forall_cons; split); try apply Forall_nil_2;
      first [by apply is_Some_insert_keep | rewrite lookup_insert_eq; by eexists].
  - eapply Forall_impl; [exact Hok|]. intros k Hk. by apply is_Some_insert_keep.
Qed.

Lemma start_command_store_cases E u w :
  user_states (start_command E u w).2 = user_states w
  ∨ user_states (start_command E u w).2
    = <[effective_user_id u := UserState None ∅]> (user_states w).
Proof.
  destruct w as [σ sent lg]. unfold start_command, try_except.
  rewrite bind_eq, reply_text_eq.
  destruct (reply_raises E (length sent)).
  - left. rewrite bind_eq. unfold logger_error. cbn. rewrite reply_text_eq.
    by destruct (reply_raises E _).
  - by right.
Qed.

Lemma handle_message_store_ok E u w : store_ok w → store_ok (handle_message E u w).2.
Proof.
  intros Hok.
  destruct (handle_message_store_cases E u w)
    as [Heq | [(entry & Hu & _ & Heq) | (entry & entry' & Hu & Hstep & Heq)]];
    intros user_id e; rewrite Heq.
  - apply Hok.
  - intros [_ He]%lookup_delete_Some. by eapply Hok.
  - intros [[_ <-]|[_ He]]%lookup_insert_Some.
    + eapply entry_step_ok; [done|]. by eapply Hok.
    + by eapply Hok.
Qed.

Lemma start_command_store_ok E u w : store_ok w → store_ok (start_command E u w).2.
Proof.
  intros Hok. destruct (start_command_store_cases E u w) as [Heq|Heq];
    intros user_id e; rewrite Heq.
  - apply Hok.
  - intros [[_ <-]|[_ He]]%lookup_insert_Some; [constructor|by eapply Hok].
Qed.

Lemma help_command_store E u w : user_states (help_command E u w).2 = user_states w.
Proof.
  destruct w as [σ sent lg]. unfold help_command. rewrite reply_text_eq.
  by destruct (reply_raises E _).
Qed.

(** The calls the bot receives: which handler, with what update, and what
    the outside world answers during the call. *)
Inductive call :=
  | Start (E : env) (u : update)
  | Help (E : env) (u : update)
  | Text (E : env) (u : update).

Definition run_call (c : call) : M unit :=
  match c with
  | Start E u => start_command E u
  | Help E u => help_command E u
  | Text E u => handle_message E u
  end.

(** The world after the calls, one after the other: a handler that raises
    leaves the world it reached. *)
Definition run_calls (calls : list call) (w : world) : world :=
  foldl (λ w c, (run_call c w).2) w calls.

Lemma run_calls_store_ok calls w : store_ok w → store_ok (run_calls calls w).
Proof.
  revert w. induction calls as [|c calls IH]; intros w Hok; [done|].
  simpl. apply IH. destruct c as [E u|E u|E u]; simpl.
  - by apply start_command_store_ok.
  - intros user_id e. rewrite help_command_store. apply Hok.
  - by apply handle_message_store_ok.
Qed.

(** X3. The answers a step relies on are there.  Starting from the empty store
    [user_states = {}], after any calls of the three handlers and whatever
    the outside world answered, an entry at a step holds an answer under
    each key of the steps before it in its flow: at FORMAT the four facets
    collected so far, at awaiting_message product, country, language and
    app_link.  So the lookups [user_data[...]] of the terminal steps find
    their keys. *)
Theorem reachable_entries_hold_answers (calls : list call) (user_id : Z)
    (entry : user_state) (key : string) :
  user_states (run_calls calls (World ∅ [] [])) !! user_id = Some entry →
  key ∈ required (state entry) →
  is_Some (data entry !! key).
Proof.
  intros Hentry Hkey.
  assert (store_ok (run_calls calls (World ∅ [] []))) as Hok.
  { apply run_calls_store_ok. intros ? ? Hempty. simpl in Hempty.
    by rewrite lookup_empty in Hempty. }
  specialize (Hok _ _ Hentry). unfold entry_ok in Hok.
  rewrite Forall_forall in Hok. by apply Hok.
Qed.

Lemma reachable_entries_hold_answers_witness :
  let E := Env true None (λ _, None) 0 TimedOut (λ _, false) in
  let says m := Text E (Update 7 None (lit m)) in
  let calls := [Start E (Update 7 None (lit "/start")); says "Use push-generator";
                says "Shop"; says "USA"] in
  let entry := UserState (Some awaiting_language)
                 {[ "product" := lit "Shop"; "country" := lit "USA" ]} in
  is_Some (data entry !! "country").
Proof.
  intros E says calls entry.
  apply (reachable_entries_hold_answers calls 7 entry "country").
  - vm_compute. reflexivity.
  - right. left.
Defined.

(** ** [start_command] and the menu *)

(** The reply of [start_command]: the two buttons of the menu. *)
Definition welcome : message :=
  Message (lit "Welcome! Choose an option:")
    (Some [[Str (lit "Generate Content")]; [Str (lit "Use push-generator")]]).

(** X4. [/start] starts over.  When Telegram accepts the welcome,
    [start_command] replaces whatever entry the user had (any step, any
    answers) by a fresh one, and the store is otherwise as it was.  When the
    welcome is refused, the exception is logged, the apology is tried and
    the store is left as it was: a conversation in progress goes on. *)
Theorem start_command_starts_over (E : env) (u : update) (w : world) :
  (reply_raises E (length (replies w)) = false →
   start_command E u w
   = (Ok (), World (<[effective_user_id u := UserState None ∅]> (user_states w))
               (replies w ++ [welcome]) (logged w)))
  ∧ (reply_raises E (length (replies w)) = true →
     user_states (start_command E u w).2 = user_states w
     ∧ replies (start_command E u w).2
       = replies w ++ [welcome; plain (lit "An error occurred. Please try again.")]
     ∧ logged (start_command E u w).2
       = logged w ++ [("Error in start_command", TelegramError)]).
Proof.
  destruct w as [σ sent lg]. cbn [user_states replies logged].
  unfold start_command, try_except. rewrite bind_eq, reply_text_eq.
  split; intros ->; [done|].
  rewrite bind_eq. unfold logger_error. cbn. rewrite reply_text_eq.
  destruct (reply_raises E _); cbn; by rewrite <- app_assoc.
Qed.

(** X5. The two buttons of the menu enter the two flows.  For a user with an
    entry and no step yet, when the [try] block does not raise: "Generate
    Content" moves the entry to AUDIENCE and sends the audience prompt with
    the keyboard of the audiences of the sheet; "Use push-generator" moves
    it to awaiting_product and asks for the product.  The answers held are
    untouched. *)
Theorem menu_choice_enters_flow (E : env) (u : update) (w : world) (d : gmap string str) :
  user_states w !! effective_user_id u = Some (UserState None d) →
  (handle_message_try E u w).1 = Ok () →
  (message_text u = lit "Generate Content" →
   user_states (handle_message E u w).2
   = <[effective_user_id u := UserState (Some AUDIENCE) d]> (user_states w)
   ∧ replies (handle_message E u w).2
     = replies w ++ [Message (lit "Please select your audience:")
                       (one_per_row (offered E "audience"))])
  ∧ (message_text u = lit "Use push-generator" →
     user_states (handle_message E u w).2
     = <[effective_user_id u := UserState (Some awaiting_product) d]> (user_states w)
     ∧ replies (handle_message E u w).2
       = replies w ++ [plain (lit "What's your product name?")]).
Proof.
  intros Hu Hok. unfold handle_message, try_except.
  rewrite (handle_message_try_known _ _ _ _ Hu) in *.
  destruct w as [σ sent lg]. cbn [state user_states replies logged] in *.
  split; intros Htext; rewrite Htext in *.
  - rewrite decide_True in * by done.
    rewrite bind_eq, init_google_services_eq in *.
    destruct (google_ok E); [|done].
    rewrite bind_eq, get_unique_values_eq in *.
    rewrite bind_eq, reply_text_eq in *.
    destruct (reply_raises E (length sent)); [done|].
    by rewrite (set_state_eq _ _ _ _ _ _ Hu).
  - rewrite decide_False in * by (by vm_compute).
    rewrite decide_True in * by done.
    rewrite bind_eq, reply_text_eq in *.
    destruct (reply_raises E (length sent)); [done|].
    by rewrite (set_state_eq _ _ _ _ _ _ Hu).
Qed.

Lemma menu_choice_enters_flow_witness :
  let teens := Record_ (Str (lit "Teens")) (Str (lit "English")) (Str (lit "USA"))
                       (Str (lit "Fitness")) (Str (lit "Image")) (Str (lit "Move!"))
                       None in
  let E := Env true (Some [teens]) (λ _, None) 0 TimedOut (λ _, false) in
  let u := Update 7 None (lit "Generate Content") in
  let w := (start_command E (Update 7 None (lit "/start")) (World ∅ [] [])).2 in
  (message_text u = lit "Generate Content" →
   user_states (handle_message E u w).2
   = <[effective_user_id u := UserState (Some AUDIENCE) ∅]> (user_states w)
   ∧ replies (handle_message E u w).2
     = replies w ++ [Message (lit "Please select your audience:")
                       (one_per_row (offered E "audience"))])
  ∧ (message_text u = lit "Use push-generator" →
     user_states (handle_message E u w).2
     = <[effective_user_id u := UserState (Some awaiting_product) ∅]> (user_states w)
     ∧ replies (handle_message E u w).2
       = replies w ++ [plain (lit "What's your product name?")]).
Proof.
  intros teens E u w.
  apply (menu_choice_enters_flow E u w ∅).
  - vm_compute. reflexivity.
  - vm_compute. reflexivity.
Defined.

(** X6. Any other text at the menu is ignored.  For a user with an entry and
    no step yet, a text that is neither button leaves the world exactly as
    it was: no reply is sent, nothing is logged, the entry does not
    change. *)
Theorem unrecognised_menu_text_is_ignored (E : env) (u : update) (w : world)
    (d : gmap string str) :
  user_states w !! effective_user_id u = Some (UserState None d) →
  message_text u ≠ lit "Generate Content" →
  message_text u ≠ lit "Use push-generator" →
  handle_message E u w = (Ok (), w).
Proof.
  intros Hu Hcontent Hpush. unfold handle_message, try_except.
  rewrite (handle_message_try_known _ _ _ _ Hu). cbn [state].
  by rewrite !decide_False by done.
Qed.

Lemma unrecognised_menu_text_is_ignored_witness :
  let E := Env true None (λ _, None) 0 TimedOut (λ _, false) in
  let u := Update 7 None (lit "generate content") in
  let w := World {[ 7%Z := UserState None ∅ ]} [] [] in
  handle_message E u w = (Ok (), w).
Proof.
  intros E u w.
  apply (unrecognised_menu_text_is_ignored E u w ∅).
  - reflexivity.
  - vm_compute. discriminate.
  - vm_compute. discriminate.
Defined.

(** ** A completed generation *)

Lemma message_try_eq E u σ sent lg st d product country language app_link :
  σ !! effective_user_id u = Some (UserState st d) →
  d !! "product" = Some product → d !! "country" = Some country →
  d !! "language" = Some language → d !! "app_link" = Some app_link →
  reply_raises E (length sent) = false →
  message_try E u (World σ sent lg)
  = (push_content ←
       generate_push_notifications E (username_or_anonymous u) product country language
         app_link (message_text u);
     match push_content : option str with
     | Some (c :: content) =>
         reply_in_parts E (c :: content);;
         reply_text E (plain more_text)
     | _ => reply_text E (plain could_not_generate_text)
     end)
      (World (<[effective_user_id u := UserState st (<["message" := message_text u]> d)]> σ)
         (sent ++ [plain generating_text]) lg).
Proof.
  intros Hu Hp Hc Hl Ha Hfirst. unfold message_try. cbv zeta.
  rewrite bind_eq, (set_data_eq _ _ _ _ _ _ _ Hu).
  rewrite bind_eq, reply_text_eq, Hfirst.
  rewrite bind_eq, (get_user_eq _ _ _ _ _ (lookup_insert_eq _ _ _)).
  cbn [data state].
  rewrite bind_eq, (getitem_eq _ _ product) by (by simplify_map_eq).
  rewrite bind_eq, (getitem_eq _ _ country) by (by simplify_map_eq).
  rewrite bind_eq, (getitem_eq _ _ language) by (by simplify_map_eq).
  rewrite bind_eq, (getitem_eq _ _ app_link) by (by simplify_map_eq).
  rewrite bind_eq, (getitem_eq _ _ (message_text u)) by (by simplify_map_eq).
  done.
Qed.

(** X7. A completion reaches the user unchanged.  At awaiting_message, with
    the four earlier answers stored, when the request ends with a non-empty
    completion and Telegram accepts every reply, the replies of the call are
    the announcement, then the completion in parts of at most 4096
    characters that put together are the completion itself, then the
    invitation to start again; nothing is logged and the entry is deleted. *)
Theorem completion_is_sent (E : env) (u : update) (w : world) (d : gmap string str)
    (product country language app_link content : str) :
  user_states w !! effective_user_id u = Some (UserState (Some awaiting_message) d) →
  d !! "product" = Some product → d !! "country" = Some country →
  d !! "language" = Some language → d !! "app_link" = Some app_link →
  deepseek E = Completion content →
  content ≠ [] →
  (∀ n, reply_raises E n = false) →
  ∃ chunks,
    handle_message E u w
    = (Ok (), World (delete (effective_user_id u) (user_states w))
                (replies w ++ [plain generating_text] ++ (plain <$> chunks)
                 ++ [plain more_text])
                (logged w))
    ∧ concat chunks = content
    ∧ Forall (λ chunk, length chunk ≤ 4096) chunks.
Proof.
  intros Hu Hp Hc Hl Ha Hdone Hcontent Hreply.
  unfold handle_message, try_except.
  rewrite (handle_message_try_known _ _ _ _ Hu).
  destruct w as [σ sent lg]. cbn [state user_states replies logged] in *.
  unfold message_step, try_finally, try_except.
  rewrite (message_try_eq _ _ _ _ _ _ _ _ _ _ _ Hu Hp Hc Hl Ha (Hreply _)).
  rewrite bind_eq. unfold generate_push_notifications at 1. rewrite Hdone.
  destruct content as [|c content]; [done|]. cbn [mret M_ret].
  rewrite bind_eq.
  exists (if 4096 <? length (c :: content) then parts 4096 (c :: content)
          else [c :: content]).
  assert (reply_in_parts E (c :: content)
            (World (<[effective_user_id u :=
                        UserState (Some awaiting_message) (<["message" := message_text u]> d)]> σ)
               (sent ++ [plain generating_text]) lg)
          = (Ok (), World (<[effective_user_id u :=
                        UserState (Some awaiting_message) (<["message" := message_text u]> d)]> σ)
               ((sent ++ [plain generating_text])
                ++ (plain <$> (if 4096 <? length (c :: content)
                               then parts 4096 (c :: content) else [c :: content]))) lg))
    as ->.
  { unfold reply_in_parts. destruct (4096 <? length (c :: content)).
    - by apply for_each_reply.
    - by rewrite reply_text_eq, Hreply. }
  rewrite reply_text_eq, Hreply. unfold del_user. cbn [user_states].
  rewrite lookup_insert_eq. cbn [replies logged].
  split; [|split].
  - f_equal. f_equal.
    + apply map_eq. intros other. destruct (decide (other = effective_user_id u)) as [->|].
      * by rewrite !lookup_delete_eq.
      * by rewrite !lookup_delete_ne, lookup_insert_ne by done.
    + by rewrite <- !app_assoc.
  - destruct (4096 <? length (c :: content)); [apply concat_parts; lia|].
    simpl. by rewrite app_nil_r.
  - destruct (Nat.ltb_spec 4096 (length (c :: content))).
    + apply parts_short. lia.
    + by apply Forall_singleton.
Qed.

Lemma completion_is_sent_witness :
  let E := Env true None (λ _, None) 0 (Completion (lit "[English] Sale! (5)"))
             (λ _, false) in
  let u := Update 7 None (lit "Half price today") in
  let d : gmap string str :=
    {[ "product" := lit "Shop"; "country" := lit "USA";
       "language" := lit "English"; "app_link" := lit "https://app" ]} in
  let w := World {[ 7%Z := UserState (Some awaiting_message) d ]} [] [] in
  ∃ chunks,
    handle_message E u w
    = (Ok (), World (delete (effective_user_id u) (user_states w))
                (replies w ++ [plain generating_text] ++ (plain <$> chunks)
                 ++ [plain more_text])
                (logged w))
    ∧ concat chunks = lit "[English] Sale! (5)"
    ∧ Forall (λ chunk, length chunk ≤ 4096) chunks.
Proof.
  intros E u d w.
  apply (completion_is_sent E u w d (lit "Shop") (lit "USA") (lit "English")
           (lit "https://app") (lit "[English] Sale! (5)")); try reflexivity.
  vm_compute. discriminate.
Defined.

(** X8. An empty completion counts as a failure.  When the request succeeds
    but its content is the empty text, [if push_content] is false: the user
    gets the announcement followed by the "couldn't generate" text, nothing
    is logged and the entry is deleted. *)
Theorem empty_completion_reports_failure (E : env) (u : update) (w : world)
    (d : gmap string str) (product country language app_link : str) :
  user_states w !! effective_user_id u = Some (UserState (Some awaiting_message) d) →
  d !! "product" = Some product → d !! "country" = Some country →
  d !! "language" = Some language → d !! "app_link" = Some app_link →
  deepseek E = Completion [] →
  (∀ n, reply_raises E n = false) →
  handle_message E u w
  = (Ok (), World (delete (effective_user_id u) (user_states w))
              (replies w ++ [plain generating_text; plain could_not_generate_text])
              (logged w)).
Proof.
  intros Hu Hp Hc Hl Ha Hdone Hreply.
  unfold handle_message, try_except.
  rewrite (handle_message_try_known _ _ _ _ Hu).
  destruct w as [σ sent lg]. cbn [state user_states replies logged] in *.
  unfold message_step, try_finally, try_except.
  rewrite (message_try_eq _ _ _ _ _ _ _ _ _ _ _ Hu Hp Hc Hl Ha (Hreply _)).
  rewrite bind_eq. unfold generate_push_notifications at 1. rewrite Hdone.
  cbn [mret M_ret]. rewrite reply_text_eq, Hreply. unfold del_user. cbn [user_states].
  rewrite lookup_insert_eq. f_equal. f_equal.
  - apply map_eq. intros other. destruct (decide (other = effective_user_id u)) as [->|].
    + by rewrite !lookup_delete_eq.
    + by rewrite !lookup_delete_ne, lookup_insert_ne by done.
  - by rewrite <- !app_assoc.
Qed.

Lemma empty_completion_reports_failure_witness :
  let E := Env true None (λ _, None) 0 (Completion []) (λ _, false) in
  let u := Update 7 None (lit "Half price today") in
  let d : gmap string str :=
    {[ "product" := lit "Shop"; "country" := lit "USA";
       "language" := lit "English"; "app_link" := lit "https://app" ]} in
  let w := World {[ 7%Z := UserState (Some awaiting_message) d ]} [] [] in
  handle_message E u w
  = (Ok (), World (delete (effective_user_id u) (user_states w))
              (replies w ++ [plain generating_text; plain could_not_generate_text])
              (logged w)).
Proof.
  intros E u d w.
  apply (empty_completion_reports_failure E u w d (lit "Shop") (lit "USA")
           (lit "English") (lit "https://app")); reflexivity.
Defined.

(** ** The parts of a long text *)

Section full_parts.

Context {A : Type} (n : nat) (l : list A).
Hypothesis n_pos : 0 < n.

Lemma slices_full fuel i k part :
  length l - i ≤ fuel →
  ((λ i, slice l i (i + n)) <$> range_from fuel i (length l) n) !! k = Some part →
  part ≠ []
  ∧ (S k < length (range_from fuel i (length l) n) → length part = n).
Proof.
  revert i k. induction fuel as [|fuel IH]; intros i k Hfuel; simpl; [done|].
  destruct (Nat.ltb_spec i (length l)) as [Hlt|Hge]; [|done].
  destruct k as [|k]; simpl.
  - intros [= <-]. unfold slice. replace (i + n - i) with n by lia. split.
    + intros Hnil%(f_equal length). rewrite length_take, length_drop in Hnil.
      simpl in Hnil. lia.
    + intros Hnext. rewrite length_take, length_drop.
      destruct fuel as [|fuel']; simpl in Hnext; [lia|].
      destruct (Nat.ltb_spec (i + n) (length l)); simpl in Hnext; lia.
  - intros Hpart. destruct (IH (i + n) k) as [Hne Hfull]; [lia|done|].
    split; [done|]. intros Hlen. apply Hfull. lia.
Qed.

End full_parts.

(** X9. The parts of a text are full and never empty.  For every text, each
    part of [parts 4096] holds at least one character, and each part but the
    last holds exactly 4096: the text is cut every 4096 characters and no
    empty message is ever among the parts. *)
Theorem parts_are_full (response : str) (k : nat) (part : str) :
  parts 4096 response !! k = Some part →
  part ≠ [] ∧ (S k < length (parts 4096 response) → length part = 4096).
Proof.
  unfold parts, range. intros Hpart. rewrite length_fmap.
  eapply (slices_full 4096 response); [lia| |done]. lia.
Qed.

Lemma parts_are_full_witness :
  let response : str := replicate 4097 97%N in
  let part : str := replicate 4096 97%N in
  part ≠ [] ∧ (S 0 < length (parts 4096 response) → length part = 4096).
Proof.
  intros response part.
  apply (parts_are_full response 0 part).
  vm_compute. reflexivity.
Defined.

(** ** Failures at the last step of the catalog flow *)

(** X10. When the catalog cannot be read at the FORMAT step, the conversation
    ends.  If Google cannot be reached or the sheet cannot be read, the user
    is sent the "error while getting content" text, the error is logged and
    the entry is deleted with the answers collected so far, whatever they
    were. *)
Theorem catalog_failure_ends_conversation (E : env) (u : update) (w : world)
    (d : gmap string str) :
  user_states w !! effective_user_id u = Some (UserState (Some FORMAT) d) →
  google_ok E = false ∨ sheet_records E = None →
  reply_raises E (length (replies w)) = false →
  (handle_message E u w).1 = Ok ()
  ∧ user_states (handle_message E u w).2 = delete (effective_user_id u) (user_states w)
  ∧ replies (handle_message E u w).2 = replies w ++ [plain content_error_text]
  ∧ ("Error in FORMAT state", GoogleError) ∈ logged (handle_message E u w).2.
Proof.
  intros Hu Hfail Hreply.
  assert (user_states (handle_message E u w).2
          = delete (effective_user_id u) (user_states w)) as Hdel.
  { unfold handle_message. rewrite handle_message_except.
    rewrite (handle_message_try_known _ _ _ _ Hu). simpl.
    apply format_step_deletes. by eexists. }
  revert Hdel. unfold handle_message, try_except.
  rewrite (handle_message_try_known _ _ _ _ Hu).
  destruct w as [σ sent lg]. cbn [state user_states replies logged] in *.
  unfold format_step, try_finally, try_except, format_try.
  rewrite bind_eq, init_google_services_eq.
  destruct (google_ok E) eqn:Hgoogle.
  - destruct Hfail as [|Hsheet]; [done|].
    rewrite bind_eq, (set_data_eq _ _ _ _ _ _ _ Hu).
    rewrite bind_eq, (get_user_eq _ _ _ _ _ (lookup_insert_eq _ _ _)).
    cbv zeta. rewrite bind_eq. unfold get_all_records. rewrite Hsheet.
    cbn [mthrow M_throw]. rewrite bind_eq. unfold logger_error. cbn [fst snd user_states replies logged].
    rewrite reply_text_eq, Hreply. unfold del_user. cbn [user_states].
    rewrite lookup_insert_eq. cbn. intros Hdel.
    split; [done|]. split; [done|]. split; [done|].
    apply elem_of_app. right. by left.
  - rewrite bind_eq. unfold logger_error. cbn [fst snd user_states replies logged].
    rewrite reply_text_eq, Hreply. unfold del_user. cbn [user_states].
    rewrite Hu. cbn. intros Hdel.
    split; [done|]. split; [done|]. split; [done|].
    apply elem_of_app. right. by left.
Qed.

Lemma catalog_failure_ends_conversation_witness :
  let E := Env true None (λ _, None) 0 TimedOut (λ _, false) in
  let u := Update 7 None (lit "Image") in
  let d : gmap string str := {[ "audience" := lit "Teens" ]} in
  let w := World {[ 7%Z := UserState (Some FORMAT) d ]} [] [] in
  (handle_message E u w).1 = Ok ()
  ∧ user_states (handle_message E u w).2 = delete (effective_user_id u) (user_states w)
  ∧ replies (handle_message E u w).2 = replies w ++ [plain content_error_text]
  ∧ ("Error in FORMAT state", GoogleError) ∈ logged (handle_message E u w).2.
Proof.
  intros E u d w.
  apply (catalog_failure_ends_conversation E u w d).
  - reflexivity.
  - right. reflexivity.
  - reflexivity.
Defined.

Lemma with_image_drive_down E r response σ sent lg :
  (∀ id, drive_link E id = None) →
  with_image E r response (World σ sent lg)
  = (Ok response,
     World σ sent
       (lg ++ match image_id r with
              | Some id => if truthy id then [("Error getting image", GoogleError)] else []
              | None => []
              end)).
Proof.
  intros Hdown. unfold with_image. destruct (image_id r) as [id|].
  2:{ by rewrite app_nil_r. }
  destruct (truthy id).
  - unfold try_except, files_get_link. rewrite bind_eq, Hdown. done.
  - by rewrite app_nil_r.
Qed.

(** X11. A failing image lookup does not keep the content back.  At the FORMAT
    step, with the answers collected and a record that has them, when the
    drive resolves no file the user still gets the header and the text of a
    record that has the five answers, with no image line; when that record
    names an image, the failure is logged, and in any case the call ends
    without an exception and the entry is deleted. *)
Theorem image_failure_is_not_fatal (E : env) (u : update) (w : world)
    (d : gmap string str) (a l c t : str) (records : list record) (r0 : record) :
  user_states w !! effective_user_id u = Some (UserState (Some FORMAT) d) →
  d !! "audience" = Some a → d !! "language" = Some l →
  d !! "country" = Some c → d !! "topic" = Some t →
  google_ok E = true → sheet_records E = Some records →
  r0 ∈ records → fits a l c t (message_text u) r0 →
  (∀ id, drive_link E id = None) →
  (∀ n, reply_raises E n = false) →
  ∃ r chunks,
    r ∈ records
    ∧ fits a l c t (message_text u) r
    ∧ concat chunks = lit "Here's your content:" ++ nl ++ nl ++ to_str (text r)
    ∧ handle_message E u w
      = (Ok (), World (delete (effective_user_id u) (user_states w))
                  (replies w ++ (plain <$> chunks))
                  (logged w ++ match image_id r with
                               | Some id =>
                                   if truthy id
                                   then [("Error getting image", GoogleError)] else []
                               | None => []
                               end)).
Proof.
  intros Hu Ha Hl Hc Ht Hgoogle Hrecords Hr0 Hfits Hdown Hreply.
  unfold handle_message, try_except.
  rewrite (handle_message_try_known _ _ _ _ Hu).
  destruct w as [σ sent lg]. cbn [state user_states replies logged] in *.
  unfold format_step, try_finally, try_except.
  rewrite (format_try_eq _ _ _ _ _ _ _ _ _ _ _ _ _ Hu Ha Hl Hc Ht Hgoogle Hrecords).
  destruct (filter (fits a l c t (message_text u)) records) as [|r rs] eqn:Hfilter.
  { assert (r0 ∈ filter (fits a l c t (message_text u)) records) as Hin
      by (by apply list_elem_of_filter).
    rewrite Hfilter in Hin. by apply elem_of_nil in Hin. }
  destruct (random_choice_eq E (r :: rs)) as (x & Hx & Hchoice); [done|].
  rewrite <- Hfilter in Hx. apply list_elem_of_filter in Hx as [Hxfits Hxin].
  cbv zeta. rewrite bind_eq, Hchoice.
  rewrite bind_eq, (with_image_drive_down _ _ _ _ _ _ Hdown).
  match goal with |- context [reply_in_parts E ?resp (World ?s ?t ?g)] =>
    destruct (reply_in_parts_eq E resp s t g Hreply) as (chunks & -> & Hconcat)
  end.
  unfold del_user. cbn [user_states]. rewrite lookup_insert_eq.
  exists x, chunks. split; [done|]. split; [done|]. split; [done|].
  f_equal. f_equal. apply map_eq. intros other.
  destruct (decide (other = effective_user_id u)) as [->|].
  - by rewrite !lookup_delete_eq.
  - by rewrite !lookup_delete_ne, lookup_insert_ne by done.
Qed.

Lemma image_failure_is_not_fatal_witness :
  let teens := Record_ (Str (lit "Teens")) (Str (lit "English")) (Str (lit "USA"))
                       (Str (lit "Fitness")) (Str (lit "Image")) (Str (lit "Move!"))
                       (Some (Str (lit "file-1"))) in
  let E := Env true (Some [teens]) (λ _, None) 0 TimedOut (λ _, false) in
  let u := Update 7 None (lit "Image") in
  let d : gmap string str :=
    {[ "audience" := lit "Teens"; "language" := lit "English";
       "country" := lit "USA"; "topic" := lit "Fitness" ]} in
  let w := World {[ 7%Z := UserState (Some FORMAT) d ]} [] [] in
  ∃ r chunks,
    r ∈ [teens]
    ∧ fits (lit "Teens") (lit "English") (lit "USA") (lit "Fitness") (message_text u) r
    ∧ concat chunks = lit "Here's your content:" ++ nl ++ nl ++ to_str (text r)
    ∧ handle_message E u w
      = (Ok (), World (delete (effective_user_id u) (user_states w))
                  (replies w ++ (plain <$> chunks))
                  (logged w ++ match image_id r with
                               | Some id =>
                                   if truthy id
                                   then [("Error getting image", GoogleError)] else []
                               | None => []
                               end)).
Proof.
  intros teens E u d w.
  apply (image_failure_is_not_fatal E u w d (lit "Teens") (lit "English")
           (lit "USA") (lit "Fitness") [teens] teens); try reflexivity.
  - left.
  - repeat split.
Defined.

(** ** The push flow from [/start] to the last question *)

Lemma start_command_ok E u σ sent lg :
  reply_raises E (length sent) = false →
  start_command E u (World σ sent lg)
  = (Ok (), World (<[effective_user_id u := UserState None ∅]> σ) (sent ++ [welcome]) lg).
Proof.
  intros Hreply. unfold start_command, try_except.
  by rewrite bind_eq, reply_text_eq, Hreply.
Qed.

Lemma handle_message_enter_push E u σ sent lg d :
  σ !! effective_user_id u = Some (UserState None d) →
  message_text u = lit "Use push-generator" →
  reply_raises E (length sent) = false →
  handle_message E u (World σ sent lg)
  = (Ok (), World (<[effective_user_id u := UserState (Some awaiting_product) d]> σ)
              (sent ++ [plain (lit "What's your product name?")]) lg).
Proof.
  intros Hu Htext Hreply. unfold handle_message, try_except.
  rewrite (handle_message_try_known E u (World σ sent lg) _ Hu). cbn [state]. rewrite Htext.
  rewrite decide_False by (by vm_compute). rewrite decide_True by done.
  rewrite bind_eq, reply_text_eq, Hreply.
  by rewrite (set_state_eq _ _ _ _ _ _ Hu).
Qed.

Lemma handle_message_question E u σ sent lg s d key next question :
  σ !! effective_user_id u = Some (UserState (Some s) d) →
  flow E s = Some (key, next, plain question) →
  reply_raises E (length sent) = false →
  handle_message E u (World σ sent lg)
  = (Ok (), World (<[effective_user_id u :=
                       UserState (Some next) (<[key := message_text u]> d)]> σ)
              (sent ++ [plain question]) lg).
Proof.
  intros Hu Hflow Hreply. unfold handle_message, try_except.
  rewrite (handle_message_try_known E u (World σ sent lg) _ Hu). cbn [state].
  destruct s; simplify_eq/=;
    rewrite (question_step_eq _ _ _ _ _ _ _ _ _ _ Hu); cbn [state data];
    by rewrite Hreply.
Qed.

(** X12. The push flow collects its four answers in order.  From any store,
    when Telegram accepts every reply: [/start], then the button "Use
    push-generator", then four texts, whatever they are, leave the user at
    awaiting_message with exactly those texts under product, country,
    language and app_link; the six replies are the welcome and the five
    questions in their order, nothing is logged and no other entry
    changes. *)
Theorem push_flow_collects (E : env) (user_id : Z) (username : option str)
    (product country language app_link : str) (w : world) :
  (∀ n, reply_raises E n = false) →
  run_calls
    [Start E (Update user_id username (lit "/start"));
     Text E (Update user_id username (lit "Use push-generator"));
     Text E (Update user_id username product);
     Text E (Update user_id username country);
     Text E (Update user_id username language);
     Text E (Update user_id username app_link)] w
  = World
      (<[user_id :=
           UserState (Some awaiting_message)
             (<["app_link" := app_link]>
                (<["language" := language]>
                   (<["country" := country]> (<["product" := product]> ∅))))]>
         (user_states w))
      (replies w
       ++ [welcome;
           plain (lit "What's your product name?");
           plain (lit "Which country are you targeting?");
           plain (lit "What language should the copy be in?");
           plain (lit "Please provide the App Store/Google Play link:");
           plain (lit "What message do you want to convey?")])
      (logged w).
Proof.
  intros Hreply. destruct w as [σ sent lg]. unfold run_calls. cbn [foldl run_call].
  rewrite start_command_ok by done. cbn [snd].
  erewrite handle_message_enter_push;
    [|apply lookup_insert_eq|done|done]. cbn [snd effective_user_id message_text].
  erewrite (handle_message_question _ _ _ _ _ awaiting_product);
    [|apply lookup_insert_eq|done|done]. cbn [snd effective_user_id message_text].
  erewrite (handle_message_question _ _ _ _ _ awaiting_country);
    [|apply lookup_insert_eq|done|done]. cbn [snd effective_user_id message_text].
  erewrite (handle_message_question _ _ _ _ _ awaiting_language);
    [|apply lookup_insert_eq|done|done]. cbn [snd effective_user_id message_text].
  erewrite (handle_message_question _ _ _ _ _ awaiting_link);
    [|apply lookup_insert_eq|done|done]. cbn [snd effective_user_id message_text].
  cbn [user_states replies logged]. rewrite !insert_insert_eq.
  by rewrite <- !app_assoc.
Qed.

Lemma push_flow_collects_witness :
  let E := Env false None (λ _, None) 0 TimedOut (λ _, false) in
  let w := World {[ 8%Z := UserState (Some TOPIC) ∅ ]} [] [] in
  run_calls
    [Start E (Update 7 None (lit "/start"));
     Text E (Update 7 None (lit "Use push-generator"));
     Text E (Update 7 None (lit "Shop"));
     Text E (Update 7 None (lit "Generate Content"));
     Text E (Update 7 None (lit "English"));
     Text E (Update 7 None (lit "https://app"))] w
  = World
      (<[7%Z :=
           UserState (Some awaiting_message)
             (<["app_link" := lit "https://app"]>
                (<["language" := lit "English"]>
                   (<["country" := lit "Generate Content"]>
                      (<["product" := lit "Shop"]> ∅))))]>
         (user_states w))
      (replies w
       ++ [welcome;
           plain (lit "What's your product name?");
           plain (lit "Which country are you targeting?");
           plain (lit "What language should the copy be in?");
           plain (lit "Please provide the App Store/Google Play link:");
           plain (lit "What message do you want to convey?")])
      (logged w).
Proof.
  intros E w.
  apply (push_flow_collects E 7 None (lit "Shop") (lit "Generate Content")
           (lit "English") (lit "https://app") w).
  reflexivity.
Defined.

(** ** The choices and the order of the rows *)


